(** * myshell: tokenizer, command parser, builtin dispatch, pipeline
      executor, job table and child reaper

    A shallow embedding of [myshell.c].  C strings are [string]s (a
    [char*] is read up to its first NUL), [int]s that hold lengths and
    limits are [Z], arrays are lists, and the operating system is an
    explicit record of answers ([sys]) so that every function stays
    executable. *)

From Stdlib Require Import ZArith Lia Bool Ascii String List.
From stdpp Require Import base list strings.
Import ListNotations.

Local Open Scope string_scope.
Local Open Scope list_scope.
Local Open Scope Z_scope.

#[local] Arguments String.append !s1 s2 : simpl nomatch.

(** ** Constants *)

Definition MAX_TOKENS : Z := 256.
Definition MAX_JOBS : nat := 128.

(** The range of [int]. *)
Definition INT_MIN : Z := -2147483648.
Definition INT_MAX : Z := 2147483647.

(** ** Characters *)

Definition NUL : ascii := "000"%char.
Definition TAB : ascii := "009"%char.
Definition LF : ascii := "010"%char.
Definition SQUOTE : ascii := "'"%char.
Definition DQUOTE : ascii := "034"%char.

(** The blank test of lines 91 and 107: space, tab or newline. *)
Definition is_blank (c : ascii) : bool :=
  Ascii.eqb c " " || Ascii.eqb c TAB || Ascii.eqb c LF.

(** The operator test of lines 93 and 112. *)
Definition is_opchar (c : ascii) : bool :=
  Ascii.eqb c ">" || Ascii.eqb c "<" || Ascii.eqb c "|" || Ascii.eqb c "&".

(** The quote test of lines 108 and 120: single or double quote. *)
Definition is_quote (c : ascii) : bool :=
  Ascii.eqb c SQUOTE || Ascii.eqb c DQUOTE.

(** What a [const char *] designates: the characters before the first
    NUL.  [strdup] copies exactly these. *)
Fixpoint c_str (s : string) : string :=
  match s with
  | EmptyString => EmptyString
  | String c s' => if Ascii.eqb c NUL then EmptyString else String c (c_str s')
  end.

(** ** Tokenizer (myshell.c, 85-129) *)

(** The skipping loop of line 91. *)
Fixpoint skip_blanks (p : string) : string :=
  match p with
  | EmptyString => EmptyString
  | String c p' => if is_blank c then skip_blanks p' else p
  end.

(** The word loop (106-114).  [quotechar = None] is [inquote == 0];
    [Some q] is [inquote == 1, quotechar == q].  The result is the span
    [start .. p) and the unread rest. *)
Fixpoint scan_word (quotechar : option ascii) (p : string) : string * string :=
  match p with
  | EmptyString => (EmptyString, EmptyString)
  | String c p' =>
      match quotechar with
      | None =>
          if is_blank c then (EmptyString, p)
          else if is_quote c then
            let '(w, r) := scan_word (Some c) p' in (String c w, r)
          else if is_opchar c then (EmptyString, p)
          else
            let '(w, r) := scan_word None p' in (String c w, r)
      | Some q =>
          if Ascii.eqb c q then
            let '(w, r) := scan_word None p' in (String c w, r)
          else
            let '(w, r) := scan_word (Some q) p' in (String c w, r)
      end
  end.

(** The copy loop (118-122): every single and double quote
    character of the span is skipped. *)
Fixpoint strip_quotes (w : string) : string :=
  match w with
  | EmptyString => EmptyString
  | String c w' =>
      if is_quote c then strip_quotes w' else String c (strip_quotes w')
  end.

(** The outer loop (90-125).  [room] is [max_tokens - 1 - n]: every pass
    that does not leave the loop stores exactly one token. *)
Fixpoint tokenize_loop (room : nat) (p : string) : list string :=
  match room with
  | O => []
  | S room' =>
      match p with
      | EmptyString => []
      | String _ _ =>
          match skip_blanks p with
          | EmptyString => []
          | String c p1 =>
              if is_opchar c then
                match p1 with
                | String c1 p2 =>
                    if Ascii.eqb c ">" && Ascii.eqb c1 ">"
                    then ">>" :: tokenize_loop room' p2
                    else String c EmptyString :: tokenize_loop room' p1
                | EmptyString => String c EmptyString :: tokenize_loop room' p1
                end
              else
                let '(w, r) := scan_word None (String c p1) in
                strip_quotes w :: tokenize_loop room' r
          end
      end
  end.

(** [tokenize(line, tokens, max_tokens)] when every allocation succeeds:
    the stored tokens; the returned [n] is their number.  [max_tokens]
    is an [int] above [INT_MIN]: there the source's [max_tokens - 1]
    overflows, which C leaves undefined. *)
Definition tokenize (line : string) (max_tokens : Z) : list string :=
  tokenize_loop (Z.to_nat (max_tokens - 1)) (c_str line).

(** *** Tokenizer with allocation failures

    [alloc k] tells whether the [k]-th allocation request of the call
    succeeds: request 0 is [strdup(line)], request [n+1] is the one for
    token [n].  A failed [strdup] of an operator stores NULL (no test in
    the source); a failed [malloc] of a word is written through at once. *)
Inductive tok_outcome : Type :=
| TokReturn (tokens : list (option string))
| TokNullWrite (tokens : list (option string)).

Definition tok_cons (t : option string) (o : tok_outcome) : tok_outcome :=
  match o with
  | TokReturn ts => TokReturn (t :: ts)
  | TokNullWrite ts => TokNullWrite (t :: ts)
  end.

Definition strdup_alloc (ok : bool) (s : string) : option string :=
  if ok then Some s else None.

Fixpoint tokenize_loop_alloc (alloc : nat -> bool) (n : nat) (room : nat)
    (p : string) : tok_outcome :=
  match room with
  | O => TokReturn []
  | S room' =>
      match p with
      | EmptyString => TokReturn []
      | String _ _ =>
          match skip_blanks p with
          | EmptyString => TokReturn []
          | String c p1 =>
              if is_opchar c then
                match p1 with
                | String c1 p2 =>
                    if Ascii.eqb c ">" && Ascii.eqb c1 ">"
                    then tok_cons (strdup_alloc (alloc (S n)) ">>")
                           (tokenize_loop_alloc alloc (S n) room' p2)
                    else tok_cons (strdup_alloc (alloc (S n)) (String c EmptyString))
                           (tokenize_loop_alloc alloc (S n) room' p1)
                | EmptyString =>
                    tok_cons (strdup_alloc (alloc (S n)) (String c EmptyString))
                      (tokenize_loop_alloc alloc (S n) room' p1)
                end
              else
                let '(w, r) := scan_word None (String c p1) in
                if alloc (S n)
                then tok_cons (Some (strip_quotes w))
                       (tokenize_loop_alloc alloc (S n) room' r)
                else TokNullWrite []
          end
      end
  end.

Definition tokenize_alloc (alloc : nat -> bool) (line : string)
    (max_tokens : Z) : tok_outcome :=
  if alloc O
  then tokenize_loop_alloc alloc O (Z.to_nat (max_tokens - 1)) (c_str line)
  else TokReturn [].

(** The [int] that [tokenize] returns, when it returns. *)
Definition tok_count (o : tok_outcome) : option Z :=
  match o with
  | TokReturn ts => Some (Z.of_nat (length ts))
  | TokNullWrite _ => None
  end.

(** ** Command parser (myshell.c, 136-186) *)

(** [argv] holds the stored words up to its NULL terminator; [infile]
    and [outfile] are [None] for NULL. *)
Record cmd_t : Type := mk_cmd {
  argv : list string;
  infile : option string;
  outfile : option string;
  append : bool
}.

(** A stage as lines 148-151 and 166-167 initialise it. *)
Definition empty_cmd : cmd_t :=
  {| argv := []; infile := None; outfile := None; append := false |}.

Inductive parse_error : Type :=
| TooManySegments   (* too many pipeline segments *)
| InNeedsFile       (* syntax error: < needs file *)
| OutNeedsFile.     (* syntax error: > needs file *)

(** [ParseOk]: return 0 with [*ncmds = length cmds]; [ParseError]:
    return -1 after the diagnostic; [ParseOverflow]: a store at
    [argv[ai]] with [ai >= MAX_TOKENS], outside the array. *)
Inductive parse_result : Type :=
| ParseOk (cmds : list cmd_t) (background : bool)
| ParseError (e : parse_error)
| ParseOverflow.

Definition set_infile (c : cmd_t) (f : string) : cmd_t :=
  {| argv := argv c; infile := Some f; outfile := outfile c; append := append c |}.

Definition set_outfile (c : cmd_t) (f : string) (app : bool) : cmd_t :=
  {| argv := argv c; infile := infile c; outfile := Some f; append := app |}.

Definition push_arg (c : cmd_t) (t : string) : cmd_t :=
  {| argv := argv c ++ [t]; infile := infile c; outfile := outfile c;
     append := append c |}.

(** [ai < MAX_TOKENS] for the stage under construction. *)
Definition argv_has_room (c : cmd_t) : bool :=
  Z.of_nat (length (argv c)) <? MAX_TOKENS.

(** The token loop (156-185).  [done] are [cmds[0 .. ci)], [cur] is
    [cmds[ci]] and [ai] is [length (argv cur)]. *)
Fixpoint parse_loop (tokens : list string) (done : list cmd_t) (cur : cmd_t)
    (background : bool) : parse_result :=
  match tokens with
  | [] =>
      if argv_has_room cur then ParseOk (done ++ [cur]) background
      else ParseOverflow
  | t :: rest =>
      if String.eqb t "&" then parse_loop rest done cur true
      else if String.eqb t "|" then
        if argv_has_room cur then
          if MAX_TOKENS <=? Z.of_nat (length done) + 1
          then ParseError TooManySegments
          else parse_loop rest (done ++ [cur]) empty_cmd background
        else ParseOverflow
      else if String.eqb t "<" then
        match rest with
        | [] => ParseError InNeedsFile
        | f :: rest' => parse_loop rest' done (set_infile cur f) background
        end
      else if String.eqb t ">" || String.eqb t ">>" then
        match rest with
        | [] => ParseError OutNeedsFile
        | f :: rest' =>
            parse_loop rest' done (set_outfile cur f (String.eqb t ">>"))
              background
        end
      else
        if argv_has_room cur
        then parse_loop rest done (push_arg cur t) background
        else ParseOverflow
  end.

Definition parse_commands (tokens : list string) : parse_result :=
  parse_loop tokens [] empty_cmd false.

(** ** Job table (myshell.c, 27-61) *)

Record job_t : Type := mk_job {
  pid : Z;
  cmdline : string;
  running : bool
}.

(** How [WIFEXITED], [WEXITSTATUS], [WIFSIGNALED] and [WTERMSIG] read
    the [int] that [waitpid] stores. *)
Inductive wstatus : Type :=
| WExited (code : Z)
| WSignaled (sig : Z)
| WOther.

(** What the shell writes, in order. *)
Inductive event : Type :=
| PrintJobStarted (index : Z) (p : Z)
| PrintJobFinished (index : Z) (p : Z) (code : Z) (line : string)
| PrintJobKilled (index : Z) (p : Z) (sig : Z) (line : string)
| FlushStdout
| Diagnostic (msg : string)
| WaitedFor (p : Z).

Fixpoint string_take (n : nat) (s : string) : string :=
  match n, s with
  | S n', String c s' => String c (string_take n' s')
  | _, _ => EmptyString
  end.

(** [strncpy(jobs[i].cmdline, cmdline, sizeof(jobs[i].cmdline)-1)]: at
    most 511 characters, NUL-padded; byte 511 of the static array is
    never written and stays NUL. *)
Definition strncpy_cmdline (src : string) : string :=
  string_take 511 (c_str src).

(** The loop of [add_job]: [n] slots remain to be tried from index [i]. *)
Fixpoint add_job_from (n : nat) (i : nat) (tbl : list job_t) (p : Z)
    (line : string) : list job_t * list event :=
  match n with
  | O => (tbl, [Diagnostic "job list full"])
  | S n' =>
      match tbl !! i with
      | Some j =>
          if running j then add_job_from n' (S i) tbl p line
          else (<[i := {| pid := p; cmdline := strncpy_cmdline line;
                          running := true |}]> tbl,
                [PrintJobStarted (Z.of_nat i + 1) p])
      | None => (tbl, [Diagnostic "job list full"])
      end
  end.

Definition add_job (tbl : list job_t) (p : Z) (line : string)
    : list job_t * list event :=
  add_job_from MAX_JOBS 0 tbl p line.

Definition done_notice (i : nat) (p : Z) (status : wstatus) (line : string)
    : list event :=
  match status with
  | WExited code => [PrintJobFinished (Z.of_nat i + 1) p code line; FlushStdout]
  | WSignaled sig => [PrintJobKilled (Z.of_nat i + 1) p sig line; FlushStdout]
  | WOther => [FlushStdout]
  end.

(** The loop of [mark_job_done]. *)
Fixpoint mark_job_done_from (n : nat) (i : nat) (tbl : list job_t) (p : Z)
    (status : wstatus) : list job_t * list event :=
  match n with
  | O => (tbl, [])
  | S n' =>
      match tbl !! i with
      | Some j =>
          if running j && (pid j =? p)
          then (<[i := {| pid := pid j; cmdline := cmdline j;
                          running := false |}]> tbl,
                done_notice i p status (cmdline j))
          else mark_job_done_from n' (S i) tbl p status
      | None => (tbl, [])
      end
  end.

Definition mark_job_done (tbl : list job_t) (p : Z) (status : wstatus)
    : list job_t * list event :=
  mark_job_done_from MAX_JOBS 0 tbl p status.

(** [main], line 293. *)
Definition initial_jobs : list job_t :=
  replicate MAX_JOBS {| pid := 0; cmdline := EmptyString; running := false |}.

(** ** Builtins (myshell.c, 188-208) *)

(** What [run_builtin] did.  [NotBuiltin] is its return value 0; the
    other three are the builtin bodies ([DidExit] does not return). *)
Inductive builtin_effect : Type :=
| NotBuiltin
| DidCd (dir : option string)       (* [None]: the value of HOME *)
| DidExit
| DidJobs (listing : list (Z * Z * string)).

(** The lines that the jobs builtin prints: index, pid and saved line of
    every running slot, in slot order. *)
Fixpoint jobs_listing (i : nat) (tbl : list job_t) : list (Z * Z * string) :=
  match tbl with
  | [] => []
  | j :: tbl' =>
      if running j
      then (Z.of_nat i + 1, pid j, cmdline j) :: jobs_listing (S i) tbl'
      else jobs_listing (S i) tbl'
  end.

Definition run_builtin (tbl : list job_t) (c : cmd_t) : builtin_effect :=
  match argv c with
  | [] => NotBuiltin
  | a0 :: args =>
      if String.eqb a0 "cd" then DidCd (head args)
      else if String.eqb a0 "exit" then DidExit
      else if String.eqb a0 "jobs" then DidJobs (jobs_listing 0 (take MAX_JOBS tbl))
      else NotBuiltin
  end.

(** The test [ncmds == 1 && run_builtin(&cmds[0])] of lines 218 and 347. *)
Inductive route : Type :=
| ToBuiltin (e : builtin_effect)
| ToExecutor.

Definition dispatch (tbl : list job_t) (cmds : list cmd_t) : route :=
  match cmds with
  | [c] =>
      match run_builtin tbl c with
      | NotBuiltin => ToExecutor
      | e => ToBuiltin e
      end
  | _ => ToExecutor
  end.

(** ** Descriptor tables *)

Inductive open_mode : Type :=
| ReadOnly        (* O_RDONLY *)
| WriteTrunc      (* O_CREAT | O_WRONLY | O_TRUNC *)
| WriteAppend.    (* O_CREAT | O_WRONLY | O_APPEND *)

(** The open file description a descriptor refers to.  [PipeRead k] and
    [PipeWrite k] are the two ends of the pipe that the running call of
    the executor creates for stage [k]; [Inherited] is whatever the
    interpreter held before that call (its terminal, a file, or a
    descriptor left over from an earlier call). *)
Inductive file_obj : Type :=
| Inherited (id : nat)
| PipeRead (k : nat)
| PipeWrite (k : nat)
| OpenedFile (path : string) (mode : open_mode).

(** A process's descriptor table: entry [fd] is [None] when [fd] is
    closed.  Descriptors past the end are closed. *)
Definition fd_table : Type := list (option file_obj).

Fixpoint fd_get (t : fd_table) (fd : nat) : option file_obj :=
  match t, fd with
  | [], _ => None
  | o :: _, O => o
  | _ :: t', S fd' => fd_get t' fd'
  end.

Fixpoint fd_put (t : fd_table) (fd : nat) (v : option file_obj) : fd_table :=
  match fd, t with
  | O, [] => [v]
  | O, _ :: t' => v :: t'
  | S fd', [] => None :: fd_put [] fd' v
  | S fd', o :: t' => o :: fd_put t' fd' v
  end.

(** The lowest closed descriptor, which [pipe] and [open] hand out. *)
Fixpoint lowest_free (t : fd_table) : nat :=
  match t with
  | Some _ :: t' => S (lowest_free t')
  | _ => O
  end.

Definition sys_close (t : fd_table) (fd : nat) : fd_table :=
  fd_put t fd None.

(** [dup2(old, new)]: fails without effect when [old] is closed. *)
Definition sys_dup2 (t : fd_table) (old new : nat) : fd_table :=
  match fd_get t old with
  | Some o => fd_put t new (Some o)
  | None => t
  end.

Definition STDIN_FILENO : nat := 0.
Definition STDOUT_FILENO : nat := 1.

(** The answers of the operating system: whether [pipe] succeeds at
    stage [i], what [fork] returns to the parent at stage [i] ([None]
    for -1) and whether a file can be opened; for the foreground wait,
    how many calls of [waitpid] fail with EINTR before one that does
    not, and whether that one hands over the child (it fails, with
    ECHILD, when the SIGCHLD handler has reaped the last stage
    first).  [open_ok] answers once per path and mode for a whole call
    of the executor: what one stage does to the files that another
    opens is expressed by comparing two systems. *)
Record sys : Type := mk_sys {
  pipe_ok : nat -> bool;
  fork_ret : nat -> option positive;
  open_ok : string -> open_mode -> bool;
  wait_eintr : nat;
  wait_ok : bool
}.

Definition sys_pipe (t : fd_table) (k : nat) : fd_table * nat * nat :=
  let r := lowest_free t in
  let t1 := fd_put t r (Some (PipeRead k)) in
  let w := lowest_free t1 in
  (fd_put t1 w (Some (PipeWrite k)), r, w).

Definition sys_open (s : sys) (t : fd_table) (path : string) (mode : open_mode)
    : option (fd_table * nat) :=
  if open_ok s path mode
  then let fd := lowest_free t in
       Some (fd_put t fd (Some (OpenedFile path mode)), fd)
  else None.

(** ** Pipeline executor (myshell.c, 210-289) *)

(** How a forked child ends its run of the shell's code: it calls
    [execvp] with the descriptor table [at_exec] (and exits with 127 if
    that fails), or it exits before. *)
Inductive child_end : Type :=
| ChildExec (at_exec : fd_table) (args : list string)
| ChildExit (code : Z).

(** The child branch (231-267).  [prev_fd] and the two [pipe_fd]
    entries are [None] for -1. *)
Definition run_child (s : sys) (t : fd_table) (prev_fd : option nat)
    (pipe_rd pipe_wr : option nat) (c : cmd_t) : child_end :=
  let t1 := match prev_fd with
            | Some p => sys_close (sys_dup2 t p STDIN_FILENO) p
            | None => t
            end in
  let t2 := match pipe_wr with
            | Some w => sys_close (sys_dup2 t1 w STDOUT_FILENO) w
            | None => t1
            end in
  let after_in :=
    match infile c with
    | Some path =>
        match sys_open s t2 path ReadOnly with
        | Some (t', fd) => Some (sys_close (sys_dup2 t' fd STDIN_FILENO) fd)
        | None => None
        end
    | None => Some t2
    end in
  match after_in with
  | None => ChildExit 1
  | Some t3 =>
      let after_out :=
        match outfile c with
        | Some path =>
            match sys_open s t3 path
                    (if append c then WriteAppend else WriteTrunc) with
            | Some (t', fd) => Some (sys_close (sys_dup2 t' fd STDOUT_FILENO) fd)
            | None => None
            end
        | None => Some t3
        end in
      match after_out with
      | None => ChildExit 1
      | Some t4 =>
          let t5 := match pipe_rd with
                    | Some r => sys_close t4 r
                    | None => t4
                    end in
          match argv c with
          | [] => ChildExit 0
          | _ :: _ => ChildExec t5 (argv c)
          end
      end
  end.

(** One record per stage that was forked: the pid the parent got, how
    the child ended, and the parent's table after its own closes
    (270-273). *)
Record stage_log : Type := mk_stage_log {
  sl_pid : Z;
  sl_child : child_end;
  sl_parent : fd_table
}.

Inductive spawn_end : Type :=
| SpawnedAll (last_pid : Z)
| PipeFailed
| ForkFailed.

Record spawn_result : Type := mk_spawn {
  sp_fds : fd_table;
  sp_log : list stage_log;
  sp_end : spawn_end
}.

(** The parent's closes of lines 271-272. *)
Definition parent_closes (t : fd_table) (prev_fd pipe_wr : option nat)
    : fd_table :=
  let t2 := match prev_fd with
            | Some p => sys_close t p
            | None => t
            end in
  match pipe_wr with
  | Some w => sys_close t2 w
  | None => t2
  end.

(** The stage loop (220-275); [cmds] are the stages [i ..] still to be
    started, so [i < ncmds - 1] exactly when a stage follows. *)
Fixpoint spawn_loop (s : sys) (cmds : list cmd_t) (i : nat) (t : fd_table)
    (prev_fd : option nat) (last_pid : Z) : spawn_result :=
  match cmds with
  | [] => {| sp_fds := t; sp_log := []; sp_end := SpawnedAll last_pid |}
  | c :: rest =>
      let piped :=
        match rest with
        | _ :: _ =>
            if pipe_ok s i
            then let '(t1, r, w) := sys_pipe t i in Some (t1, Some r, Some w)
            else None
        | [] => Some (t, None, None)
        end in
      match piped with
      | None => {| sp_fds := t; sp_log := []; sp_end := PipeFailed |}
      | Some (t1, pipe_rd, pipe_wr) =>
          match fork_ret s i with
          | None => {| sp_fds := t1; sp_log := []; sp_end := ForkFailed |}
          | Some child =>
              let ends := run_child s t1 prev_fd pipe_rd pipe_wr c in
              let t3 := parent_closes t1 prev_fd pipe_wr in
              let r := spawn_loop s rest (S i) t3 pipe_rd (Z.pos child) in
              {| sp_fds := sp_fds r;
                 sp_log := {| sl_pid := Z.pos child; sl_child := ends;
                              sl_parent := t3 |} :: sp_log r;
                 sp_end := sp_end r |}
          end
      end
  end.

(** The interpreter's own state: the job table, its descriptor table
    and [errno]. *)
Record shell : Type := mk_shell {
  jobs : list job_t;
  fds : fd_table;
  errno : Z
}.

Inductive exec_end : Type :=
| EndBuiltin (e : builtin_effect)
| EndBackground
| EndForeground
| EndFailed.

Record exec_report : Type := mk_report {
  ex_jobs : list job_t;
  ex_fds : fd_table;
  ex_log : list stage_log;
  ex_out : list event;
  ex_end : exec_end
}.

(** The foreground wait (283-287): a call that fails with EINTR is
    repeated, any other failure is reported and ends the loop.
    [interrupts] is the number of interrupted calls still to come; a run
    in which every call is interrupted does not return. *)
Fixpoint wait_last (interrupts : nat) (ok : bool) (last_pid : Z)
    : list event :=
  match interrupts with
  | S k => WaitedFor last_pid :: wait_last k ok last_pid
  | O => WaitedFor last_pid :: (if ok then [] else [Diagnostic "waitpid"])
  end.

Definition execute_pipeline (s : sys) (sh : shell) (cmds : list cmd_t)
    (background : bool) (line : string) : exec_report :=
  match dispatch (jobs sh) cmds with
  | ToBuiltin e =>
      {| ex_jobs := jobs sh; ex_fds := fds sh; ex_log := []; ex_out := [];
         ex_end := EndBuiltin e |}
  | ToExecutor =>
      let r := spawn_loop s cmds 0 (fds sh) None (-1) in
      match sp_end r with
      | SpawnedAll last_pid =>
          if background then
            let '(tbl, out) := add_job (jobs sh) last_pid line in
            {| ex_jobs := tbl; ex_fds := sp_fds r; ex_log := sp_log r;
               ex_out := out; ex_end := EndBackground |}
          else
            {| ex_jobs := jobs sh; ex_fds := sp_fds r; ex_log := sp_log r;
               ex_out := wait_last (wait_eintr s) (wait_ok s) last_pid;
               ex_end := EndForeground |}
      | PipeFailed =>
          {| ex_jobs := jobs sh; ex_fds := sp_fds r; ex_log := sp_log r;
             ex_out := [Diagnostic "pipe"]; ex_end := EndFailed |}
      | ForkFailed =>
          {| ex_jobs := jobs sh; ex_fds := sp_fds r; ex_log := sp_log r;
             ex_out := [Diagnostic "fork"]; ex_end := EndFailed |}
      end
  end.

(** ** Child reaper (myshell.c, 63-74) *)

(** One [waitpid(-1, &status, WNOHANG)] that returned a child, followed
    by [mark_job_done].  Either call may store a value in [errno]. *)
Record reaped_child : Type := mk_reaped {
  rc_pid : positive;
  rc_status : wstatus;
  rc_wait_errno : option Z;
  rc_print_errno : option Z
}.

Definition store_errno (v : option Z) (e : Z) : Z :=
  match v with
  | Some e' => e'
  | None => e
  end.

(** The [while (1)] loop: the children that [waitpid] hands over, then
    the call that returns 0 or -1 (and may store [final_errno]). *)
Fixpoint reap_loop (reaped : list reaped_child) (final_errno : option Z)
    (tbl : list job_t) (e : Z) : list job_t * Z * list event :=
  match reaped with
  | [] => (tbl, store_errno final_errno e, [])
  | r :: rest =>
      let e1 := store_errno (rc_wait_errno r) e in
      let '(tbl1, out1) := mark_job_done tbl (Z.pos (rc_pid r)) (rc_status r) in
      let e2 := store_errno (rc_print_errno r) e1 in
      let '(tbl2, e3, out2) := reap_loop rest final_errno tbl1 e2 in
      (tbl2, e3, out1 ++ out2)
  end.

Definition sigchld_handler (reaped : list reaped_child)
    (final_errno : option Z) (sh : shell) : shell * list event :=
  let saved_errno := errno sh in
  let '(tbl, _, out) := reap_loop reaped final_errno (jobs sh) (errno sh) in
  ({| jobs := tbl; fds := fds sh; errno := saved_errno |}, out).

(** ** One pass of the read loop (myshell.c, 324-355) *)

(** Line 325: a final newline is overwritten with NUL. *)
Fixpoint chomp (line : string) : string :=
  match line with
  | EmptyString => EmptyString
  | String c EmptyString =>
      if Ascii.eqb c LF then EmptyString else String c EmptyString
  | String c line' => String c (chomp line')
  end.

(** Line 329: leading spaces and tabs are skipped. *)
Fixpoint skip_indent (p : string) : string :=
  match p with
  | EmptyString => EmptyString
  | String c p' =>
      if Ascii.eqb c " " || Ascii.eqb c TAB then skip_indent p' else p
  end.

Inductive line_result : Type :=
| LineSkipped
| LineRejected (e : parse_error)
| LineFault
| LineBuiltin (e : builtin_effect)
| LineExecuted (cmds : list cmd_t) (background : bool) (r : exec_report).

(** Lines 337-355, from the token array on. *)
Definition run_tokens (s : sys) (sh : shell) (tokens : list string)
    (trim : string) : line_result :=
  match parse_commands tokens with
  | ParseError e => LineRejected e
  | ParseOverflow => LineFault
  | ParseOk cmds background =>
      match dispatch (jobs sh) cmds with
      | ToBuiltin e => LineBuiltin e
      | ToExecutor =>
          LineExecuted cmds background
            (execute_pipeline s sh cmds background trim)
      end
  end.

Definition run_line (s : sys) (sh : shell) (line : string) : line_result :=
  let trim := skip_indent (c_str (chomp line)) in
  match trim with
  | EmptyString => LineSkipped
  | String _ _ =>
      let tokens := tokenize trim MAX_TOKENS in
      if Z.of_nat (length tokens) <=? 0 then LineSkipped
      else run_tokens s sh tokens trim
  end.

(** ** Notions of the specification *)

(** Operator tokens are told apart by their text alone. *)
Definition is_operator_token (t : string) : bool :=
  String.eqb t "|" || String.eqb t "<" || String.eqb t ">"
  || String.eqb t ">>" || String.eqb t "&".

Definition is_redirect_token (t : string) : bool :=
  String.eqb t "<" || String.eqb t ">" || String.eqb t ">>".

Definition is_builtin_name (t : string) : bool :=
  String.eqb t "cd" || String.eqb t "exit" || String.eqb t "jobs".

(** All the tokens of a line: the tokenizer with room for every one. *)
Definition all_tokens (line : string) : list string :=
  tokenize line (Z.of_nat (S (S (String.length line)))).

Definition no_operator_tokens (line : string) : bool :=
  forallb (fun t => negb (is_operator_token t)) (all_tokens line).

(** The whitespace-split words of a line, read off the specification: a
    blank outside a quoted span ends the word, everything else belongs
    to the word; [quote] is the character that opened the span we are
    in, [cur] the word read so far. *)
Definition word_snoc (cur : option string) (c : ascii) : option string :=
  Some (String.append (default EmptyString cur) (String c EmptyString)).

Definition word_close (cur : option string) : list string :=
  match cur with
  | Some w => [w]
  | None => []
  end.

Fixpoint split_words (quote : option ascii) (cur : option string)
    (s : string) : list string :=
  match s with
  | EmptyString => word_close cur
  | String c s' =>
      match quote with
      | Some q =>
          split_words (if Ascii.eqb c q then None else quote) (word_snoc cur c) s'
      | None =>
          if is_blank c then word_close cur ++ split_words None None s'
          else split_words (if is_quote c then Some c else None)
                 (word_snoc cur c) s'
      end
  end.

(** Quote stripping, read off the specification: no quote character
    appears in the output. *)
Definition unquote (w : string) : string :=
  string_of_list_ascii
    (filter (fun c => is_quote c = false) (list_ascii_of_string w)).

Definition spec_words (line : string) : list string :=
  map unquote (split_words None None line).

(** The stage of the specification for a line without operators. *)
Definition plain_stage (words : list string) : cmd_t :=
  {| argv := words; infile := None; outfile := None; append := false |}.

(** The number of [|] tokens that open a new stage: a token right after
    a redirection operator is that operator's file, whatever its text. *)
Fixpoint stage_breaks (tokens : list string) : nat :=
  match tokens with
  | [] => O
  | t :: rest =>
      if is_redirect_token t then
        match rest with
        | [] => O
        | _ :: rest' => stage_breaks rest'
        end
      else if String.eqb t "|" then S (stage_breaks rest)
      else stage_breaks rest
  end.

Definition pipeline_stages (tokens : list string) : Z :=
  Z.of_nat (S (stage_breaks tokens)).


(** No operator character occurs outside a quoted span. *)
Fixpoint unquoted_op_free (quote : option ascii) (s : string) : bool :=
  match s with
  | EmptyString => true
  | String c s' =>
      match quote with
      | Some q => unquoted_op_free (if Ascii.eqb c q then None else quote) s'
      | None =>
          if is_blank c then unquoted_op_free None s'
          else if is_quote c then unquoted_op_free (Some c) s'
          else negb (is_opchar c) && unquoted_op_free None s'
      end
  end.

Definition is_pipe_end (o : file_obj) : bool :=
  match o with
  | PipeRead _ | PipeWrite _ => true
  | _ => false
  end.

(** The interpreter's table when a pipeline is started: standard
    input, output and error are open, and no descriptor refers yet to a
    pipe of the call that is about to start. *)
Definition std_open (t : fd_table) : Prop :=
  is_Some (fd_get t 0) /\ is_Some (fd_get t 1) /\ is_Some (fd_get t 2).

Definition no_pipe_ends (t : fd_table) : Prop :=
  forall fd o, fd_get t fd = Some o -> is_pipe_end o = false.


(** ** Invariants and sample inputs used in the statements *)

(** A character with no special meaning to the tokenizer. *)
Definition is_plain (c : ascii) : bool :=
  negb (is_blank c) && negb (is_quote c) && negb (is_opchar c).

Fixpoint string_forall (f : ascii -> bool) (s : string) : bool :=
  match s with
  | EmptyString => true
  | String c s' => f c && string_forall f s'
  end.

(** The input at which a word stops: its end, a blank or an operator
    character. *)
Definition word_ends (p : string) : bool :=
  match p with
  | EmptyString => true
  | String c _ => is_blank c || is_opchar c
  end.

(** A line of [n] one-letter words. *)
Fixpoint many_words (n : nat) : string :=
  match n with
  | O => EmptyString
  | S n' => String "a" (String " " (many_words n'))
  end.


(** An allocator that fails on request [k] only. *)
Definition fails_at (k : nat) : nat -> bool :=
  fun i => negb (Nat.eqb i k).

Definition push_args (c : cmd_t) (ws : list string) : cmd_t :=
  {| argv := argv c ++ ws; infile := infile c; outfile := outfile c;
     append := append c |}.

(** The pipelines the specification sends to the builtin dispatcher, as
    far as the code agrees: exactly one stage, whose first argument is a
    builtin name. *)
Definition single_builtin (cmds : list cmd_t) : bool :=
  match cmds with
  | [c] =>
      match argv c with
      | a :: _ => is_builtin_name a
      | [] => false
      end
  | _ => false
  end.

(** Slot [i] is the lowest one whose record is inactive. *)
Definition lowest_inactive (tbl : list job_t) (i : nat) : Prop :=
  (exists j, tbl !! i = Some j /\ running j = false) /\
  forall k j, (k < i)%nat -> tbl !! k = Some j -> running j = true.

Definition matches (p : Z) (j : job_t) : bool :=
  running j && (pid j =? p).

(** Slot [i] is the lowest active one that holds pid [p]. *)
Definition first_match (tbl : list job_t) (p : Z) (i : nat) : Prop :=
  (exists j, tbl !! i = Some j /\ matches p j = true) /\
  forall k j, (k < i)%nat -> tbl !! k = Some j -> matches p j = false.

(** A system in which every call succeeds and stage [i] gets pid
    [100 + i], and the shell right after start-up on a terminal. *)
Definition sys_ok : sys :=
  {| pipe_ok := fun _ => true;
     fork_ret := fun i => Some (Pos.of_nat (100 + i));
     open_ok := fun _ _ => true;
     wait_eintr := 0;
     wait_ok := true |}.

Definition tty_fds : fd_table :=
  [Some (Inherited 0); Some (Inherited 0); Some (Inherited 0)].

Definition shell0 : shell :=
  {| jobs := initial_jobs; fds := tty_fds; errno := 0 |}.

(** The record that [add_job] stores, and a record after
    [mark_job_done] cleared its flag. *)
Definition new_job (p : Z) (line : string) : job_t :=
  {| pid := p; cmdline := strncpy_cmdline line; running := true |}.

Definition retired (j : job_t) : job_t :=
  {| pid := pid j; cmdline := cmdline j; running := false |}.

(** Every [pipe] and [fork] that a pipeline of [n] stages needs
    succeeds. *)
Definition launches (s : sys) (n : nat) : Prop :=
  forall k, (k < n)%nat -> pipe_ok s k = true /\ is_Some (fork_ret s k).

(** The pipe ends a child of stage [i] (of [n]) may hold when it calls
    [execvp]: the read end of the previous stage's pipe as standard
    input and the write end of its own pipe as standard output. *)
Definition child_pipes_ok (i n : nat) (t : fd_table) : Prop :=
  forall fd o, fd_get t fd = Some o -> is_pipe_end o = true ->
    (fd = STDIN_FILENO /\ o = PipeRead (i - 1) /\ (0 < i)%nat) \/
    (fd = STDOUT_FILENO /\ o = PipeWrite i /\ (S i < n)%nat).

(** The pipe ends the parent may hold once stage [i] (of [n]) is set
    up: the read end that feeds stage [i + 1]. *)
Definition parent_pipes_ok (i n : nat) (t : fd_table) : Prop :=
  forall fd o, fd_get t fd = Some o -> is_pipe_end o = true ->
    o = PipeRead i /\ (S i < n)%nat.

(** The parent's table and [prev_fd] on entry to the pass for stage
    [i]. *)
Definition parent_inv (i : nat) (t : fd_table) (prev_fd : option nat) : Prop :=
  std_open t /\
  (forall fd o, fd_get t fd = Some o -> is_pipe_end o = true ->
     prev_fd = Some fd /\ o = PipeRead (i - 1)) /\
  (forall p, prev_fd = Some p ->
     fd_get t p = Some (PipeRead (i - 1)) /\ (2 < p)%nat) /\
  (is_Some prev_fd <-> (0 < i)%nat).

(** The pipe ends a child of stage [i] may hold while it still runs the
    shell's code after wiring its standard streams: the two it will
    keep, and the read end of its own pipe, which it closes last. *)
Definition wired_pipes_ok (i n : nat) (pipe_rd : option nat) (t : fd_table)
    : Prop :=
  forall fd o, fd_get t fd = Some o -> is_pipe_end o = true ->
    (fd = STDIN_FILENO /\ o = PipeRead (i - 1) /\ (0 < i)%nat) \/
    (fd = STDOUT_FILENO /\ o = PipeWrite i /\ (S i < n)%nat) \/
    (pipe_rd = Some fd /\ o = PipeRead i).

Definition std_in_out_open (t : fd_table) : Prop :=
  is_Some (fd_get t STDIN_FILENO) /\ is_Some (fd_get t STDOUT_FILENO).

(** The table a child inherits at [fork] in the pass for stage [i]. *)
Definition at_fork (i n : nat) (t : fd_table) (prev_fd pipe_rd pipe_wr : option nat)
    : Prop :=
  std_open t /\
  (forall fd o, fd_get t fd = Some o -> is_pipe_end o = true ->
     (prev_fd = Some fd /\ o = PipeRead (i - 1)) \/
     (pipe_rd = Some fd /\ o = PipeRead i) \/
     (pipe_wr = Some fd /\ o = PipeWrite i)) /\
  (forall p, prev_fd = Some p ->
     fd_get t p = Some (PipeRead (i - 1)) /\ (2 < p)%nat) /\
  (forall r, pipe_rd = Some r ->
     fd_get t r = Some (PipeRead i) /\ (2 < r)%nat) /\
  (forall w, pipe_wr = Some w ->
     fd_get t w = Some (PipeWrite i) /\ (2 < w)%nat) /\
  (is_Some prev_fd <-> (0 < i)%nat) /\
  (is_Some pipe_wr <-> (S i < n)%nat) /\
  (is_Some pipe_rd <-> (S i < n)%nat).

(** Stage [k] of [n], with command [c], was set up with the descriptor
    discipline: the parent is left with the read end for stage [k + 1]
    and no other pipe end, its standard streams still open; a child that reaches [execvp] holds pipe ends
    only as its standard input and output, and holds them there unless
    a redirection replaced them. *)
Definition stage_ok (n k : nat) (c : cmd_t) (lg : stage_log) : Prop :=
  parent_pipes_ok k n (sl_parent lg) /\
  std_open (sl_parent lg) /\
  ((S k < n)%nat -> exists fd, fd_get (sl_parent lg) fd = Some (PipeRead k)) /\
  forall t args, sl_child lg = ChildExec t args ->
    child_pipes_ok k n t /\
    ((0 < k)%nat -> infile c = None ->
       fd_get t STDIN_FILENO = Some (PipeRead (k - 1))) /\
    ((S k < n)%nat -> outfile c = None ->
       fd_get t STDOUT_FILENO = Some (PipeWrite k)).

(** The parsed form of a three-stage pipeline whose last stage writes
    to a file. *)
Definition three_stages : list cmd_t :=
  [mk_cmd ["a"] None None false; mk_cmd ["b"] None None false;
   mk_cmd ["c"] None (Some "out") false].

(** A system in which [fork] fails at stage [k]. *)
Definition sys_fork_fails (k : nat) : sys :=
  {| pipe_ok := fun _ => true;
     fork_ret := fun i => if Nat.eqb i k then None
                          else Some (Pos.of_nat (100 + i));
     open_ok := fun _ _ => true;
     wait_eintr := 0;
     wait_ok := true |}.

(** ** Further notions: token positions *)

(** The tokens that the parser stores as arguments: those that are not
    [&] or [|], not a redirection operator and not the token right
    after one. *)
Fixpoint word_tokens (tokens : list string) : list string :=
  match tokens with
  | [] => []
  | t :: rest =>
      if String.eqb t "&" then word_tokens rest
      else if String.eqb t "|" then word_tokens rest
      else if is_redirect_token t then
        match rest with
        | [] => []
        | _ :: rest' => word_tokens rest'
        end
      else t :: word_tokens rest
  end.

(** Some [&] stands where the parser reads an operator. *)
Fixpoint background_marked (tokens : list string) : bool :=
  match tokens with
  | [] => false
  | t :: rest =>
      if String.eqb t "&" then true
      else if is_redirect_token t then
        match rest with
        | [] => false
        | _ :: rest' => background_marked rest'
        end
      else background_marked rest
  end.

(** The sequence ends in a redirection operator that has no token left
    to take as its file. *)
Fixpoint dangling_redirect (tokens : list string) : bool :=
  match tokens with
  | [] => false
  | t :: rest =>
      if is_redirect_token t then
        match rest with
        | [] => true
        | _ :: rest' => dangling_redirect rest'
        end
      else dangling_redirect rest
  end.

(** ** Further notions: the job table *)

(** No two active slots hold the same pid. *)
Definition pids_distinct (tbl : list job_t) : Prop :=
  forall i k ji jk,
    tbl !! i = Some ji -> tbl !! k = Some jk ->
    running ji = true -> running jk = true -> pid ji = pid jk -> i = k.

(** No active slot holds pid [p]. *)
Definition untracked (tbl : list job_t) (p : Z) : Prop :=
  forall k j, tbl !! k = Some j -> matches p j = false.

(** ** Further notions: the executor *)

(** The mode in which the child opens an output file (line 253). *)
Definition out_mode (c : cmd_t) : open_mode :=
  if append c then WriteAppend else WriteTrunc.

(** In a pipeline of [n] stages the calls for the stages before [k]
    succeed, and the [pipe] or the [fork] for stage [k] fails. *)
Definition calls_succeed_before (s : sys) (n k : nat) : Prop :=
  forall j, (j < k)%nat ->
    ((S j < n)%nat -> pipe_ok s j = true) /\ is_Some (fork_ret s j).

Definition call_fails (s : sys) (n k : nat) : Prop :=
  ((S k < n)%nat /\ pipe_ok s k = false) \/ fork_ret s k = None.


(** The files a stage names can be opened: the input file for reading,
    the output file in the stage's output mode. *)
Definition in_opens (s : sys) (c : cmd_t) : bool :=
  match infile c with
  | Some path => open_ok s path ReadOnly
  | None => true
  end.

Definition out_opens (s : sys) (c : cmd_t) : bool :=
  match outfile c with
  | Some path => open_ok s path (out_mode c)
  | None => true
  end.

(** A system in which the file [name] cannot be opened. *)
Definition sys_no_file (name : string) : sys :=
  {| pipe_ok := fun _ => true;
     fork_ret := fun i => Some (Pos.of_nat (100 + i));
     open_ok := fun path _ => negb (String.eqb path name);
     wait_eintr := 0;
     wait_ok := true |}.

(** A system in which the foreground wait is interrupted once and then
    fails: the SIGCHLD handler has reaped the last stage first. *)
Definition sys_reaped_first : sys :=
  {| pipe_ok := fun _ => true;
     fork_ret := fun i => Some (Pos.of_nat (100 + i));
     open_ok := fun _ _ => true;
     wait_eintr := 1;
     wait_ok := false |}.

(** The [open] calls that the child of stage [c] makes are answered by
    [s'] as by [s]: the one for its input file, and, when that one
    succeeds, the one for its output file. *)
Definition same_opens (s s' : sys) (c : cmd_t) : Prop :=
  in_opens s' c = in_opens s c /\
  (in_opens s c = true -> out_opens s' c = out_opens s c).

(** A job table with two background jobs, pids 5 and 9, in slots 0 and
    1, and the interpreter holding it. *)
Definition two_jobs : list job_t :=
  new_job 5 "sleep 5 &" :: new_job 9 "sleep 9 &"
    :: replicate 126 {| pid := 0; cmdline := EmptyString; running := false |}.

Definition shell2 : shell :=
  {| jobs := two_jobs; fds := tty_fds; errno := 0 |}.

(** * Properties *)

(** ** Tokenizer *)

Section TokenizerFacts.

Lemma append_nil_r (s : string) : String.append s EmptyString = s.
Proof. induction s as [|c s IH]; simpl; [reflexivity | now rewrite IH]. Qed.

Lemma append_assoc' (a b c : string) :
  String.append (String.append a b) c = String.append a (String.append b c).
Proof. induction a as [|x a IH]; simpl; [reflexivity | now rewrite IH]. Qed.

Lemma skip_blanks_plain c p :
  is_blank c = false -> skip_blanks (String c p) = String c p.
Proof. intros H; simpl; now rewrite H. Qed.

Lemma is_plain_inv c :
  is_plain c = true ->
  is_blank c = false /\ is_quote c = false /\ is_opchar c = false.
Proof.
  unfold is_plain; intros H.
  apply andb_true_iff in H as [H Ho]; apply andb_true_iff in H as [Hb Hq].
  repeat split; now apply negb_true_iff.
Qed.

Lemma opchar_not_blank c : is_opchar c = true -> is_blank c = false.
Proof.
  unfold is_opchar, is_blank; intros H.
  repeat (apply orb_true_iff in H as [H|H]);
    apply Ascii.eqb_eq in H; subst c; reflexivity.
Qed.

Lemma opchar_not_quote c : is_opchar c = true -> is_quote c = false.
Proof.
  unfold is_opchar, is_quote; intros H.
  repeat (apply orb_true_iff in H as [H|H]);
    apply Ascii.eqb_eq in H; subst c; reflexivity.
Qed.

Lemma scan_word_plain w p :
  string_forall is_plain w = true ->
  scan_word None (String.append w p) =
    let '(w', r) := scan_word None p in (String.append w w', r).
Proof.
  induction w as [|c w IH]; simpl; intros H.
  - now destruct (scan_word None p).
  - apply andb_true_iff in H as [Hc Hw].
    destruct (is_plain_inv _ Hc) as (-> & -> & ->).
    rewrite (IH Hw). now destruct (scan_word None p).
Qed.

Lemma scan_word_stops_at_op c p :
  is_opchar c = true -> scan_word None (String c p) = (EmptyString, String c p).
Proof.
  intros H; simpl.
  now rewrite (opchar_not_blank _ H), (opchar_not_quote _ H), H.
Qed.

Lemma strip_quotes_plain w :
  string_forall is_plain w = true -> strip_quotes w = w.
Proof.
  induction w as [|c w IH]; simpl; intros H; [reflexivity|].
  apply andb_true_iff in H as [Hc Hw].
  destruct (is_plain_inv _ Hc) as (_ & -> & _). now rewrite IH.
Qed.

(** An operator character at the head of the input is a token of its
    own; [>] takes a directly following [>] with it. *)
Lemma tokenize_loop_op room c p :
  is_opchar c = true ->
  tokenize_loop (S room) (String c p) =
    match p with
    | String c1 p2 =>
        if Ascii.eqb c ">" && Ascii.eqb c1 ">"
        then ">>" :: tokenize_loop room p2
        else String c EmptyString :: tokenize_loop room p
    | EmptyString => [String c EmptyString]
    end.
Proof.
  intros H. cbn [tokenize_loop].
  rewrite (skip_blanks_plain _ _ (opchar_not_blank _ H)), H.
  destruct p as [|c1 p2]; [|reflexivity].
  now destruct room.
Qed.

Lemma tokenize_loop_word room w c p :
  string_forall is_plain w = true -> w <> EmptyString -> is_opchar c = true ->
  tokenize_loop (S room) (String.append w (String c p)) =
    w :: tokenize_loop room (String c p).
Proof.
  intros Hw Hne Hc.
  destruct w as [|a w]; [congruence|].
  pose proof Hw as Hw'. simpl in Hw'.
  apply andb_true_iff in Hw' as [Ha _].
  destruct (is_plain_inv _ Ha) as (Hb & Hq & Ho).
  change (String.append (String a w) (String c p))
    with (String a (String.append w (String c p))).
  cbn [tokenize_loop]. rewrite (skip_blanks_plain _ _ Hb), Ho.
  change (String a (String.append w (String c p)))
    with (String.append (String a w) (String c p)).
  rewrite (scan_word_plain _ _ Hw), (scan_word_stops_at_op _ _ Hc).
  cbv beta iota. now rewrite append_nil_r, (strip_quotes_plain _ Hw).
Qed.

(** C7.  [a>b] tokenizes as [a], [>], [b] and [a>>b] as [a], [>>], [b].
    In general: [>] directly followed by [>] is consumed as the single
    token [>>], whatever comes next; a [>] followed by anything else, and
    every [<], [|] and [&], is a one-character token; and a word that
    runs into an operator character ends there, with no whitespace in
    between. *)
Theorem C7_operators_are_tokens :
  tokenize "a>b" MAX_TOKENS = ["a"; ">"; "b"] /\
  tokenize "a>>b" MAX_TOKENS = ["a"; ">>"; "b"] /\
  (forall room p,
      tokenize_loop (S room) (String ">" (String ">" p)) =
        ">>" :: tokenize_loop room p) /\
  (forall room c p,
      is_opchar c = true ->
      match p with
      | String c1 _ => Ascii.eqb c ">" && Ascii.eqb c1 ">" = false
      | EmptyString => True
      end ->
      tokenize_loop (S room) (String c p) =
        String c EmptyString :: tokenize_loop room p) /\
  (forall room w c p,
      string_forall is_plain w = true -> w <> EmptyString ->
      is_opchar c = true ->
      tokenize_loop (S room) (String.append w (String c p)) =
        w :: tokenize_loop room (String c p)).
Proof.
  split; [reflexivity|]. split; [reflexivity|]. split; [|split].
  - intros room p. now rewrite tokenize_loop_op.
  - intros room c p Hc Hp. rewrite (tokenize_loop_op _ _ _ Hc).
    destruct p as [|c1 p2]; [now destruct room|]. now rewrite Hp.
  - apply tokenize_loop_word.
Qed.

Lemma C7_operators_are_tokens_witness :
  tokenize_loop 3 "ls|wc" = "ls" :: tokenize_loop 2 "|wc" /\
  tokenize_loop 2 "<>>" = "<" :: tokenize_loop 1 ">>".
Proof.
  destruct C7_operators_are_tokens as (_ & _ & _ & Hone & Hword).
  split.
  - apply (Hword 2%nat "ls" "|"%char "wc"); [reflexivity | discriminate | reflexivity].
  - apply (Hone 1%nat "<"%char ">>"); reflexivity.
Defined.

End TokenizerFacts.

(** ** Tokenizer and allocation failure *)

Section AllocationFacts.

Lemma tokenize_loop_alloc_all_succeed n room p :
  tokenize_loop_alloc (fun _ => true) n room p =
    TokReturn (map Some (tokenize_loop room p)).
Proof.
  revert n p; induction room as [|room IH]; intros n p; [reflexivity|].
  cbn [tokenize_loop tokenize_loop_alloc].
  destruct p as [|c0 p0]; [reflexivity|].
  destruct (skip_blanks (String c0 p0)) as [|c p1]; [reflexivity|].
  destruct (is_opchar c).
  - destruct p1 as [|c1 p2].
    + now rewrite IH.
    + destruct (Ascii.eqb c ">" && Ascii.eqb c1 ">"); now rewrite IH.
  - destruct (scan_word None (String c p1)) as [w r]. now rewrite IH.
Qed.

(** When no allocation fails, the tokenizer returns, and returns the
    tokens of [tokenize]. *)
Lemma tokenize_alloc_all_succeed line max_tokens :
  tokenize_alloc (fun _ => true) line max_tokens =
    TokReturn (map Some (tokenize line max_tokens)).
Proof. apply tokenize_loop_alloc_all_succeed. Qed.

(** The one tested allocation: a failed copy of the line returns 0. *)
Lemma tokenize_alloc_line_copy_fails alloc line max_tokens :
  alloc O = false ->
  tokenize_alloc alloc line max_tokens = TokReturn [] /\
  tok_count (tokenize_alloc alloc line max_tokens) = Some 0.
Proof. unfold tokenize_alloc; intros ->; split; reflexivity. Qed.

(** C5.  When the allocation of the first token fails, the tokenizer
    does not return an empty result: for the line [>>] it stores a NULL
    token and returns 1, and for the line [ls] it writes through the
    NULL pointer that [malloc] returned. *)
Theorem C5_token_allocation_failure :
  tokenize_alloc (fails_at 1) ">>" MAX_TOKENS = TokReturn [None] /\
  tok_count (tokenize_alloc (fails_at 1) ">>" MAX_TOKENS) = Some 1 /\
  tokenize_alloc (fails_at 1) "ls" MAX_TOKENS = TokNullWrite [] /\
  tokenize_alloc (fails_at 2) "ls | wc" MAX_TOKENS
    = TokReturn [Some "ls"; None; Some "wc"].
Proof. repeat split; reflexivity. Qed.

End AllocationFacts.

(** ** Command parser *)

Section ParserFacts.

Lemma not_operator_inv t :
  is_operator_token t = false ->
  String.eqb t "|" = false /\ String.eqb t "<" = false /\
  String.eqb t ">" = false /\ String.eqb t ">>" = false /\
  String.eqb t "&" = false.
Proof.
  unfold is_operator_token; intros H.
  repeat (apply orb_false_iff in H as [H ?]). repeat split; assumption.
Qed.

Lemma push_args_nil c : push_args c [] = c.
Proof. destruct c; unfold push_args; simpl. now rewrite app_nil_r. Qed.

Lemma push_args_cons c t ws :
  push_args (push_arg c t) ws = push_args c (t :: ws).
Proof. unfold push_args, push_arg; simpl. now rewrite <- app_assoc. Qed.

(** Words are appended to the stage under construction, in order. *)
Lemma parse_loop_words ws : forall rest done cur bg,
  Forall (fun t => is_operator_token t = false) ws ->
  Z.of_nat (length (argv cur) + length ws) < MAX_TOKENS ->
  parse_loop (ws ++ rest) done cur bg =
    parse_loop rest done (push_args cur ws) bg.
Proof.
  induction ws as [|t ws IH]; intros rest done cur bg Hw Hlen.
  - now rewrite push_args_nil.
  - inversion Hw as [|? ? Ht Hws]; subst.
    destruct (not_operator_inv _ Ht) as (Hp & Hi & Ho & Hoo & Ha).
    cbn [app parse_loop]. rewrite Ha, Hp, Hi, Ho, Hoo. cbn [orb].
    unfold argv_has_room. cbn [length] in Hlen.
    destruct (Z.ltb_spec (Z.of_nat (length (argv cur))) MAX_TOKENS); [|lia].
    rewrite IH; [apply f_equal2; [apply push_args_cons | reflexivity] | assumption |].
    unfold push_arg; cbn [argv]. rewrite length_app; cbn [length]. lia.
Qed.

Lemma parse_loop_end done cur bg :
  Z.of_nat (length (argv cur)) < MAX_TOKENS ->
  parse_loop [] done cur bg = ParseOk (done ++ [cur]) bg.
Proof.
  intros H; cbn [parse_loop]; unfold argv_has_room.
  now destruct (Z.ltb_spec (Z.of_nat (length (argv cur))) MAX_TOKENS); [|lia].
Qed.

Lemma redirect_token_inv t :
  is_redirect_token t = true -> t = "<" \/ t = ">" \/ t = ">>".
Proof.
  unfold is_redirect_token; intros H.
  repeat (apply orb_true_iff in H as [H|H]); apply String.eqb_eq in H; auto.
Qed.

(** C4 (as amended).  When the parser is at a [<] token it takes the
    next token, whatever its text, as the input file of the current
    stage; at [>] or [>>] it takes the next token as the output file and
    sets the append flag exactly for [>>]; when no token follows,
    parsing fails and yields no pipeline.  As a consequence, around a
    redirection among plain words the file ends up in the parsed stage,
    and a redirection operator after plain words at the end of the
    sequence is a parse error. *)
Theorem C4_redirection_takes_next_token :
  forall (pre post : list string) (f : string) (done : list cmd_t)
         (cur : cmd_t) (bg : bool),
    Forall (fun t => is_operator_token t = false) pre ->
    Forall (fun t => is_operator_token t = false) post ->
    Z.of_nat (length pre + length post) < MAX_TOKENS ->
    (parse_loop ("<" :: f :: post) done cur bg
       = parse_loop post done (set_infile cur f) bg /\
     parse_loop (">" :: f :: post) done cur bg
       = parse_loop post done (set_outfile cur f false) bg /\
     parse_loop (">>" :: f :: post) done cur bg
       = parse_loop post done (set_outfile cur f true) bg) /\
    (parse_loop ["<"] done cur bg = ParseError InNeedsFile /\
     parse_loop [">"] done cur bg = ParseError OutNeedsFile /\
     parse_loop [">>"] done cur bg = ParseError OutNeedsFile) /\
    (parse_commands (pre ++ "<" :: f :: post)
       = ParseOk [mk_cmd (pre ++ post) (Some f) None false] false /\
     parse_commands (pre ++ ">" :: f :: post)
       = ParseOk [mk_cmd (pre ++ post) None (Some f) false] false /\
     parse_commands (pre ++ ">>" :: f :: post)
       = ParseOk [mk_cmd (pre ++ post) None (Some f) true] false) /\
    (parse_commands (pre ++ ["<"]) = ParseError InNeedsFile /\
     parse_commands (pre ++ [">"]) = ParseError OutNeedsFile /\
     parse_commands (pre ++ [">>"]) = ParseError OutNeedsFile).
Proof.
  intros pre post f done cur bg Hpre Hpost Hlen.
  assert (Hpre_len : Z.of_nat (length (argv empty_cmd) + length pre) < MAX_TOKENS)
    by (cbn [argv empty_cmd length]; lia).
  assert (Hpost_len : forall c, argv c = pre ->
            Z.of_nat (length (argv c) + length post) < MAX_TOKENS)
    by (intros c ->; lia).
  assert (Hpost_end : forall c, argv c = pre ->
            Z.of_nat (length (argv (push_args c post))) < MAX_TOKENS).
  { intros c Hc. unfold push_args; cbn [argv]. rewrite length_app, Hc. lia. }
  repeat split; try reflexivity; unfold parse_commands;
    rewrite (parse_loop_words pre _ _ _ _ Hpre Hpre_len);
    try reflexivity.
  all: cbn [parse_loop String.eqb Ascii.eqb Bool.eqb orb].
  all: rewrite <- (app_nil_r post) at 1.
  all: rewrite (parse_loop_words post) by (auto; apply Hpost_len; reflexivity).
  all: rewrite parse_loop_end by (apply Hpost_end; reflexivity).
  all: reflexivity.
Qed.

Lemma C4_redirection_takes_next_token_witness :
  parse_commands (["sort"; "-r"] ++ "<" :: "in.txt" :: ["-u"])
    = ParseOk [mk_cmd (["sort"; "-r"] ++ ["-u"]) (Some "in.txt") None false] false
  /\ parse_commands (["sort"; "-r"] ++ [">>"]) = ParseError OutNeedsFile.
Proof.
  destruct (C4_redirection_takes_next_token ["sort"; "-r"] ["-u"] "in.txt"
              [] empty_cmd false) as (_ & _ & (Hin & _) & (_ & _ & Herr)).
  - repeat constructor.
  - repeat constructor.
  - reflexivity.
  - split; [exact Hin | exact Herr].
Defined.

(** The token after a redirection operator is taken as the file even
    when it is an operator token, and a redirection operator that ends
    the sequence is then not an error. *)
Lemma C4_counterexample :
  (is_operator_token "|" = true /\
   parse_commands ["cat"; "<"; "|"]
     = ParseOk [mk_cmd ["cat"] (Some "|") None false] false) /\
  (is_redirect_token ">" = true /\
   last ["sort"; "<"; ">"] = Some ">" /\
   parse_commands ["sort"; "<"; ">"]
     = ParseOk [mk_cmd ["sort"] (Some ">") None false] false).
Proof. repeat split; reflexivity. Qed.

End ParserFacts.

(** ** The stage limit *)

Section StageLimit.

Lemma redirect_not_amp_pipe t :
  is_redirect_token t = true ->
  String.eqb t "&" = false /\ String.eqb t "|" = false.
Proof.
  intros H. destruct (redirect_token_inv _ H) as [->|[->| ->]]; split; reflexivity.
Qed.

Lemma parse_loop_redirect t rest done cur bg :
  is_redirect_token t = true ->
  parse_loop (t :: rest) done cur bg =
    match rest with
    | [] => ParseError (if String.eqb t "<" then InNeedsFile else OutNeedsFile)
    | f :: rest' =>
        parse_loop rest' done
          (if String.eqb t "<" then set_infile cur f
           else set_outfile cur f (String.eqb t ">>")) bg
    end.
Proof.
  intros H.
  destruct (redirect_token_inv _ H) as [->|[->| ->]]; destruct rest; reflexivity.
Qed.

Lemma parse_loop_word t rest done cur bg :
  String.eqb t "&" = false -> String.eqb t "|" = false ->
  is_redirect_token t = false ->
  parse_loop (t :: rest) done cur bg =
    if argv_has_room cur then parse_loop rest done (push_arg cur t) bg
    else ParseOverflow.
Proof.
  intros Ha Hp Hr. unfold is_redirect_token in Hr.
  repeat (apply orb_false_iff in Hr as [Hr ?]).
  cbn [parse_loop]. rewrite Ha, Hp, Hr.
  replace (String.eqb t ">" || String.eqb t ">>") with false; [reflexivity|].
  symmetry; apply orb_false_iff; split; assumption.
Qed.



Lemma tokenize_loop_length room : forall p,
  (length (tokenize_loop room p) <= room)%nat.
Proof.
  induction room as [|room IH]; intros p; cbn [tokenize_loop length]; [lia|].
  destruct p as [|c0 p0]; [cbn; lia|].
  destruct (skip_blanks (String c0 p0)) as [|c p1]; [cbn; lia|].
  destruct (is_opchar c).
  - destruct p1 as [|c1 p2].
    + cbn [length]. specialize (IH EmptyString); lia.
    + destruct (Ascii.eqb c ">" && Ascii.eqb c1 ">"); cbn [length];
        [specialize (IH p2) | specialize (IH (String c1 p2))]; lia.
  - destruct (scan_word None (String c p1)) as [w r]. cbn [length].
    specialize (IH r); lia.
Qed.




End StageLimit.

(** ** Builtin dispatch *)

Section DispatchFacts.

Lemma run_builtin_is_builtin tbl c :
  run_builtin tbl c <> NotBuiltin <->
  match argv c with
  | a :: _ => is_builtin_name a = true
  | [] => False
  end.
Proof.
  unfold run_builtin, is_builtin_name.
  destruct (argv c) as [|a args]; [tauto|].
  destruct (String.eqb a "cd"); [split; [reflexivity | discriminate]|].
  destruct (String.eqb a "exit"); [split; [reflexivity | discriminate]|].
  destruct (String.eqb a "jobs"); [split; [reflexivity | discriminate]|].
  cbn; split; [congruence | discriminate].
Qed.

Lemma dispatch_builtin tbl cmds :
  single_builtin cmds = true ->
  exists e, e <> NotBuiltin /\ dispatch tbl cmds = ToBuiltin e.
Proof.
  unfold single_builtin, dispatch.
  destruct cmds as [|c [|c' cmds]]; try discriminate.
  intros H. assert (Hb : run_builtin tbl c <> NotBuiltin).
  { apply run_builtin_is_builtin. now destruct (argv c). }
  exists (run_builtin tbl c). split; [assumption|].
  now destruct (run_builtin tbl c).
Qed.

Lemma dispatch_executor tbl cmds :
  single_builtin cmds = false -> dispatch tbl cmds = ToExecutor.
Proof.
  unfold single_builtin, dispatch.
  destruct cmds as [|c [|c' cmds]]; try reflexivity.
  intros H. destruct (run_builtin tbl c) eqn:E; try reflexivity; exfalso.
  all: assert (Hb : run_builtin tbl c <> NotBuiltin) by (rewrite E; discriminate).
  all: apply run_builtin_is_builtin in Hb; destruct (argv c); [tauto | congruence].
Qed.

(** The test looks at the argument vector only. *)
Lemma dispatch_ignores_redirections tbl args fin fout app :
  dispatch tbl [mk_cmd args fin fout app] = dispatch tbl [mk_cmd args None None false].
Proof. reflexivity. Qed.

Lemma executor_never_runs_builtin s sh cmds bg line :
  dispatch (jobs sh) cmds = ToExecutor ->
  forall e, ex_end (execute_pipeline s sh cmds bg line) <> EndBuiltin e.
Proof.
  intros H e. unfold execute_pipeline. rewrite H.
  destruct (sp_end _); [destruct bg; [destruct (add_job _ _ _)|]| |];
    cbn [ex_end]; discriminate.
Qed.

(** C1 (as amended).  A parsed pipeline is run by the builtin dispatcher
    in the interpreter's own process exactly when it has one stage whose
    first argument is [cd], [exit] or [jobs], whether or not that stage
    carries a redirection target; every other pipeline is passed to the
    pipeline executor, which then starts no builtin. *)
Theorem C1_builtin_routing (s : sys) (sh : shell) (tokens : list string)
    (trim : string) (cmds : list cmd_t) (bg : bool) :
  parse_commands tokens = ParseOk cmds bg ->
  (single_builtin cmds = true ->
     exists e, e <> NotBuiltin /\ run_tokens s sh tokens trim = LineBuiltin e) /\
  (single_builtin cmds = false ->
     run_tokens s sh tokens trim
       = LineExecuted cmds bg (execute_pipeline s sh cmds bg trim) /\
     forall e, ex_end (execute_pipeline s sh cmds bg trim) <> EndBuiltin e).
Proof.
  intros Hp; unfold run_tokens; rewrite Hp; split; intros Hb.
  - destruct (dispatch_builtin (jobs sh) _ Hb) as (e & Hne & ->). now exists e.
  - pose proof (dispatch_executor (jobs sh) _ Hb) as Hd. rewrite Hd.
    split; [reflexivity|]. now apply executor_never_runs_builtin.
Qed.

Lemma C1_builtin_routing_witness :
  exists e, e <> NotBuiltin /\
    run_tokens sys_ok shell0 ["cd"; "/tmp"; ">"; "out"] "cd /tmp > out"
      = LineBuiltin e.
Proof.
  apply (C1_builtin_routing sys_ok shell0 ["cd"; "/tmp"; ">"; "out"]
           "cd /tmp > out" [mk_cmd ["cd"; "/tmp"] None (Some "out") false] false);
    reflexivity.
Defined.

(** A single-stage [cd] with an output redirection is run as a builtin,
    not passed to the executor. *)
Lemma C1_counterexample :
  parse_commands (tokenize "cd /tmp > out" MAX_TOKENS)
    = ParseOk [mk_cmd ["cd"; "/tmp"] None (Some "out") false] false /\
  run_line sys_ok shell0 "cd /tmp > out" = LineBuiltin (DidCd (Some "/tmp")).
Proof. split; reflexivity. Qed.

End DispatchFacts.

(** ** Job table *)

Section JobTableFacts.

Variables (p : Z) (line : string) (status : wstatus).

Lemma add_job_from_spec n : forall i (tbl : list job_t),
  (i + n = length tbl)%nat ->
  (forall k j, (k < i)%nat -> tbl !! k = Some j -> running j = true) ->
  (forall m, lowest_inactive tbl m ->
     add_job_from n i tbl p line
       = (<[m := new_job p line]> tbl, [PrintJobStarted (Z.of_nat m + 1) p])) /\
  ((forall k j, tbl !! k = Some j -> running j = true) ->
     add_job_from n i tbl p line = (tbl, [Diagnostic "job list full"])).
Proof.
  induction n as [|n IH]; intros i tbl Hlen Hbelow.
  - split; [|reflexivity].
    intros m [(j & Hm & Hj) _]. exfalso.
    assert (m < i)%nat by (apply lookup_lt_Some in Hm; lia).
    rewrite (Hbelow m j) in Hj; [discriminate | assumption | assumption].
  - cbn [add_job_from].
    destruct (lookup_lt_is_Some_2 tbl i) as [j Hi]; [lia|].
    rewrite Hi. destruct (running j) eqn:Hr.
    + apply IH; [lia|]. intros k j' Hk Hk'.
      destruct (decide (k = i)) as [->|]; [congruence|].
      apply (Hbelow k); [lia | assumption].
    + split.
      * intros m [(jm & Hm & Hjm) Hlow].
        destruct (lt_eq_lt_dec m i) as [[Hlt | Heq] | Hgt]; [| subst m |].
        -- rewrite (Hbelow m jm) in Hjm; [discriminate | assumption | assumption].
        -- reflexivity.
        -- rewrite (Hlow i j) in Hr; [discriminate | assumption | assumption].
      * intros Hall. rewrite (Hall i j) in Hr; [discriminate | assumption].
Qed.

Lemma add_job_from_frame n : forall i (tbl : list job_t),
  exists m, forall k, k <> m ->
    (add_job_from n i tbl p line).1 !! k = tbl !! k.
Proof.
  induction n as [|n IH]; intros i tbl; cbn [add_job_from].
  - now exists O.
  - destruct (tbl !! i) as [j|]; [|now exists O].
    destruct (running j); [apply IH|].
    exists i. intros k Hk. cbn [fst]. now apply list_lookup_insert_ne.
Qed.

Lemma add_job_from_keeps_active n : forall i (tbl : list job_t) k j,
  tbl !! k = Some j -> running j = true ->
  (add_job_from n i tbl p line).1 !! k = Some j.
Proof.
  induction n as [|n IH]; intros i tbl k j Hk Hr; cbn [add_job_from].
  - exact Hk.
  - destruct (tbl !! i) as [ji|] eqn:Hi; [|exact Hk].
    destruct (running ji) eqn:Hri; [now apply IH|].
    cbn [fst]. rewrite list_lookup_insert_ne; [exact Hk|].
    intros ->. congruence.
Qed.

Lemma mark_job_done_from_spec n : forall i (tbl : list job_t),
  (i + n = length tbl)%nat ->
  (forall k j, (k < i)%nat -> tbl !! k = Some j -> matches p j = false) ->
  (forall m j, first_match tbl p m -> tbl !! m = Some j ->
     mark_job_done_from n i tbl p status
       = (<[m := retired j]> tbl, done_notice m p status (cmdline j))) /\
  ((forall k j, tbl !! k = Some j -> matches p j = false) ->
     mark_job_done_from n i tbl p status = (tbl, [])).
Proof.
  induction n as [|n IH]; intros i tbl Hlen Hbelow.
  - split; [|reflexivity].
    intros m j [(jm & Hm & Hjm) _] _. exfalso.
    assert (m < i)%nat by (apply lookup_lt_Some in Hm; lia).
    rewrite (Hbelow m jm) in Hjm; [discriminate | assumption | assumption].
  - cbn [mark_job_done_from].
    destruct (lookup_lt_is_Some_2 tbl i) as [j Hi]; [lia|].
    rewrite Hi. fold (matches p j). destruct (matches p j) eqn:Hr.
    + split.
      * intros m jm' [(jm & Hm & Hjm) Hlow] Hm'.
        destruct (lt_eq_lt_dec m i) as [[Hlt | Heq] | Hgt]; [| subst m |].
        -- rewrite (Hbelow m jm) in Hjm; [discriminate | assumption | assumption].
        -- rewrite Hi in Hm'. now inversion Hm'.
        -- rewrite (Hlow i j) in Hr; [discriminate | assumption | assumption].
      * intros Hall. rewrite (Hall i j) in Hr; [discriminate | assumption].
    + apply IH; [lia|]. intros k j' Hk Hk'.
      destruct (decide (k = i)) as [->|]; [congruence|].
      apply (Hbelow k); [lia | assumption].
Qed.

Lemma mark_job_done_from_frame n : forall i (tbl : list job_t),
  exists m, forall k, k <> m ->
    (mark_job_done_from n i tbl p status).1 !! k = tbl !! k.
Proof.
  induction n as [|n IH]; intros i tbl; cbn [mark_job_done_from].
  - now exists O.
  - destruct (tbl !! i) as [j|]; [|now exists O].
    destruct (running j && (pid j =? p)); [|apply IH].
    exists i. intros k Hk. cbn [fst]. now apply list_lookup_insert_ne.
Qed.

(** C10.  Each job-table operation changes at most one slot.  [add_job]
    writes the lowest inactive slot and no other, and it never changes
    an active slot.  [mark_job_done] clears the running flag of the
    lowest active slot that holds the pid, keeps that slot's pid and
    saved command line, and changes no other slot; when no active slot
    holds the pid, the table is unchanged. *)
Theorem C10_job_table_frame (tbl : list job_t) :
  length tbl = MAX_JOBS ->
  ((exists m, forall k, k <> m -> (add_job tbl p line).1 !! k = tbl !! k) /\
   (forall m, lowest_inactive tbl m ->
      (add_job tbl p line).1 = <[m := new_job p line]> tbl /\
      forall k, k <> m -> (add_job tbl p line).1 !! k = tbl !! k) /\
   (forall k j, tbl !! k = Some j -> running j = true ->
      (add_job tbl p line).1 !! k = Some j)) /\
  ((exists m, forall k, k <> m ->
      (mark_job_done tbl p status).1 !! k = tbl !! k) /\
   (forall m j, first_match tbl p m -> tbl !! m = Some j ->
      (mark_job_done tbl p status).1 !! m
        = Some {| pid := pid j; cmdline := cmdline j; running := false |} /\
      forall k, k <> m -> (mark_job_done tbl p status).1 !! k = tbl !! k) /\
   ((forall k j, tbl !! k = Some j -> matches p j = false) ->
      (mark_job_done tbl p status).1 = tbl)).
Proof.
  intros Hlen. unfold add_job, mark_job_done. split; split; [| split | | split].
  - apply add_job_from_frame.
  - intros m Hm.
    destruct (add_job_from_spec MAX_JOBS 0 tbl) as [Hs _]; [lia | lia |].
    rewrite (Hs m Hm). cbn [fst]. split; [reflexivity|].
    intros k Hk. now apply list_lookup_insert_ne.
  - apply add_job_from_keeps_active.
  - apply mark_job_done_from_frame.
  - intros m j Hm Hj.
    destruct (mark_job_done_from_spec MAX_JOBS 0 tbl) as [Hs _]; [lia | lia |].
    rewrite (Hs m j Hm Hj). cbn [fst]. split.
    + apply list_lookup_insert_eq. now apply lookup_lt_Some in Hj.
    + intros k Hk. now apply list_lookup_insert_ne.
  - intros Hnone.
    destruct (mark_job_done_from_spec MAX_JOBS 0 tbl) as [_ Hs]; [lia | lia |].
    now rewrite (Hs Hnone).
Qed.

End JobTableFacts.

Lemma C10_job_table_frame_witness :
  (add_job initial_jobs 42 "sleep 1 &").1
    = <[0%nat := new_job 42 "sleep 1 &"]> initial_jobs /\
  (mark_job_done (add_job initial_jobs 42 "sleep 1 &").1 42 (WExited 0)).1 !! 0%nat
    = Some {| pid := 42; cmdline := "sleep 1 &"; running := false |}.
Proof.
  destruct (C10_job_table_frame 42 "sleep 1 &" (WExited 0) initial_jobs
              eq_refl) as [(_ & Hadd & _) _].
  destruct (C10_job_table_frame 42 "sleep 1 &" (WExited 0)
              (add_job initial_jobs 42 "sleep 1 &").1 eq_refl)
    as [_ (_ & Hdone & _)].
  split.
  - apply Hadd.
    split; [exists (mk_job 0 EmptyString false); split; reflexivity|].
    intros k j Hk; lia.
  - apply (Hdone 0%nat (mk_job 42 "sleep 1 &" true)); [|reflexivity].
    split; [exists (mk_job 42 "sleep 1 &" true); split; reflexivity|].
    intros k j Hk; lia.
Defined.

(** ** Child reaper *)

Section ReaperFacts.

(** The loop by itself does not preserve [errno]: the last [waitpid]
    alone may overwrite it. *)
Lemma reap_loop_clobbers_errno tbl e e' :
  (reap_loop [] (Some e') tbl e).1.2 = e'.
Proof. reflexivity. Qed.

(** C9.  The handler returns with [errno] as it found it, whatever
    children it reaps and whatever the calls in between store there. *)
Theorem C9_handler_preserves_errno (reaped : list reaped_child)
    (final_errno : option Z) (sh : shell) :
  errno (sigchld_handler reaped final_errno sh).1 = errno sh.
Proof.
  unfold sigchld_handler.
  now destruct (reap_loop reaped final_errno (jobs sh) (errno sh)) as [[tbl e] out].
Qed.

Lemma sigchld_handler_keeps_fds reaped final_errno sh :
  fds (sigchld_handler reaped final_errno sh).1 = fds sh.
Proof.
  unfold sigchld_handler.
  now destruct (reap_loop reaped final_errno (jobs sh) (errno sh)) as [[tbl e] out].
Qed.

End ReaperFacts.

(** ** Background jobs *)

Section BackgroundFacts.

Variable s : sys.

Lemma spawn_loop_launches : forall cmds i t prev lp child,
  cmds <> [] ->
  (forall k, (k < length cmds)%nat ->
     pipe_ok s (i + k) = true /\ is_Some (fork_ret s (i + k))) ->
  fork_ret s (i + length cmds - 1) = Some child ->
  let r := spawn_loop s cmds i t prev lp in
  sp_end r = SpawnedAll (Z.pos child) /\
  length (sp_log r) = length cmds /\
  exists l, last (sp_log r) = Some l /\ sl_pid l = Z.pos child.
Proof.
  induction cmds as [|c rest IH]; intros i t prev lp child Hne Hok Hlast;
    [congruence|].
  cbn [spawn_loop].
  destruct (Hok O) as [Hpipe [ch Hfork]]; [cbn [length]; lia|].
  rewrite Nat.add_0_r in Hpipe, Hfork.
  destruct rest as [|c' rest'].
  - rewrite Hfork. cbn [length] in Hlast.
    replace (i + 1 - 1)%nat with i in Hlast by lia.
    assert (ch = child) by congruence; subst ch.
    cbn. repeat split. eexists; split; reflexivity.
  - rewrite Hpipe. destruct (sys_pipe t i) as [[t1 rd] wr]. rewrite Hfork.
    cbn [sp_end sp_log length].
    edestruct (IH (S i)) as (He & Hl & l & Hlast' & Hpid).
    + discriminate.
    + intros k Hk. replace (S i + k)%nat with (i + S k)%nat by lia.
      apply Hok. cbn [length] in *; lia.
    + replace (S i + length (c' :: rest') - 1)%nat
        with (i + length (c :: c' :: rest') - 1)%nat by (cbn [length]; lia).
      exact Hlast.
    + cbv zeta in He, Hl, Hlast'. rewrite He, Hl. repeat split.
      exists l. split; [|assumption]. rewrite last_cons, Hlast'. reflexivity.
Qed.

Lemma strncpy_cmdline_short line :
  c_str line = line -> (String.length line <= 511)%nat ->
  strncpy_cmdline line = line.
Proof.
  unfold strncpy_cmdline; intros -> Hlen. revert Hlen.
  generalize 511%nat as n. induction line as [|c l IH]; intros n Hlen.
  - now destruct n.
  - destruct n as [|n]; cbn [String.length] in Hlen; [lia|].
    cbn [string_take]. rewrite IH; [reflexivity | lia].
Qed.

(** C6.  When a pipeline is launched in the background (all its stages
    were forked), the executor stores the pid of the last stage and the
    command line (as [strncpy] keeps it: the line itself up to 511
    characters) in the lowest inactive slot, marks it running and prints
    the slot index plus one; when every slot is active it reports that
    the job list is full and leaves the table alone.  In both cases the
    forked stages are the same. *)
Theorem C6_background_job (sh : shell) (cmds : list cmd_t) (line : string)
    (child : positive) :
  length (jobs sh) = MAX_JOBS ->
  cmds <> [] ->
  dispatch (jobs sh) cmds = ToExecutor ->
  launches s (length cmds) ->
  fork_ret s (length cmds - 1) = Some child ->
  let r := execute_pipeline s sh cmds true line in
  ex_end r = EndBackground /\
  length (ex_log r) = length cmds /\
  ex_log r = ex_log (execute_pipeline s sh cmds false line) /\
  (exists l, last (ex_log r) = Some l /\ sl_pid l = Z.pos child) /\
  (forall m, lowest_inactive (jobs sh) m ->
     ex_jobs r = <[m := {| pid := Z.pos child;
                           cmdline := strncpy_cmdline line;
                           running := true |}]> (jobs sh) /\
     ex_out r = [PrintJobStarted (Z.of_nat m + 1) (Z.pos child)]) /\
  ((forall k j, jobs sh !! k = Some j -> running j = true) ->
     ex_jobs r = jobs sh /\ ex_out r = [Diagnostic "job list full"]) /\
  (c_str line = line -> (String.length line <= 511)%nat ->
     strncpy_cmdline line = line).
Proof.
  intros Hlen Hne Hd Hok Hlast r.
  destruct (spawn_loop_launches cmds 0 (fds sh) None (-1) child Hne)
    as (He & Hl & l & Hll & Hpid); [exact Hok | exact Hlast |].
  cbv zeta in He, Hl, Hll.
  destruct (add_job_from_spec (Z.pos child) line MAX_JOBS 0 (jobs sh))
    as [Hslot Hfull]; [lia | lia |].
  fold (add_job (jobs sh) (Z.pos child) line) in Hslot, Hfull.
  subst r. unfold execute_pipeline. rewrite Hd, He.
  destruct (add_job (jobs sh) (Z.pos child) line) as [tbl out] eqn:Hadd.
  cbn [ex_end ex_log ex_jobs ex_out].
  split; [reflexivity|]. split; [exact Hl|]. split; [reflexivity|].
  split; [now exists l|]. split; [|split].
  - intros m Hm. specialize (Hslot m Hm). now inversion Hslot.
  - intros Hall. specialize (Hfull Hall). now inversion Hfull.
  - apply strncpy_cmdline_short.
Qed.

End BackgroundFacts.

Lemma C6_background_job_witness :
  ex_jobs (execute_pipeline sys_ok shell0
             [mk_cmd ["sleep"; "1"] None None false] true "sleep 1 &")
    = <[0%nat := {| pid := 100; cmdline := "sleep 1 &"; running := true |}]>
        initial_jobs /\
  ex_out (execute_pipeline sys_ok shell0
            [mk_cmd ["sleep"; "1"] None None false] true "sleep 1 &")
    = [PrintJobStarted 1 100].
Proof.
  destruct (C6_background_job sys_ok shell0
              [mk_cmd ["sleep"; "1"] None None false] "sleep 1 &"
              100%positive) as (_ & _ & _ & _ & Hslot & _).
  - reflexivity.
  - discriminate.
  - reflexivity.
  - intros k Hk. split; [reflexivity | eexists; reflexivity].
  - reflexivity.
  - apply (Hslot 0%nat).
    split; [exists (mk_job 0 EmptyString false); split; reflexivity|].
    intros k j Hk; lia.
Defined.

(** ** Quoting and lines without operators *)

Section QuotingFacts.

Lemma quote_not_blank c : is_quote c = true -> is_blank c = false.
Proof.
  unfold is_quote, is_blank; intros H.
  repeat (apply orb_true_iff in H as [H|H]);
    apply Ascii.eqb_eq in H; subst c; reflexivity.
Qed.

Lemma quote_not_opchar c : is_quote c = true -> is_opchar c = false.
Proof.
  intros H. destruct (is_opchar c) eqn:Ho; [|reflexivity].
  rewrite (opchar_not_quote _ Ho) in H; discriminate.
Qed.

(** The copy loop of the code computes the quote stripping of the
    specification. *)
Lemma strip_quotes_unquote w : strip_quotes w = unquote w.
Proof.
  unfold unquote. induction w as [|c w IH]; [reflexivity|].
  cbn [strip_quotes list_ascii_of_string]. rewrite filter_cons.
  destruct (is_quote c) eqn:Hq.
  - rewrite decide_False by discriminate. exact IH.
  - rewrite decide_True by reflexivity. cbn [string_of_list_ascii].
    now rewrite IH.
Qed.

Lemma strip_quotes_app a b :
  strip_quotes (String.append a b) = String.append (strip_quotes a) (strip_quotes b).
Proof.
  induction a as [|c a IH]; [reflexivity|]. cbn [String.append strip_quotes].
  destruct (is_quote c); [exact IH|]. cbn [String.append]. now rewrite IH.
Qed.

Lemma strip_quotes_verbatim w :
  string_forall (fun c => negb (is_quote c)) w = true -> strip_quotes w = w.
Proof.
  induction w as [|c w IH]; [reflexivity|]. cbn [string_forall strip_quotes].
  intros H. apply andb_true_iff in H as [Hc Hw].
  apply negb_true_iff in Hc. rewrite Hc. now rewrite IH.
Qed.

(** Inside a span everything up to the closing quote is consumed,
    blanks and operator characters included. *)
Lemma scan_word_span q body p :
  string_forall (fun c => negb (Ascii.eqb c q)) body = true ->
  scan_word (Some q) (String.append body (String q p)) =
    let '(w, r) := scan_word None p in
    (String.append body (String q w), r).
Proof.
  induction body as [|c body IH]; intros H.
  - cbn [String.append scan_word]. rewrite Ascii.eqb_refl.
    now destruct (scan_word None p).
  - cbn [string_forall] in H. apply andb_true_iff in H as [Hc Hb].
    apply negb_true_iff in Hc.
    cbn [String.append scan_word]. rewrite Hc, (IH Hb).
    now destruct (scan_word None p).
Qed.

Lemma scan_word_ends p :
  word_ends p = true -> scan_word None p = (EmptyString, p).
Proof.
  destruct p as [|c p]; [reflexivity|]. cbn [word_ends scan_word].
  intros H. destruct (is_blank c) eqn:Hb; [reflexivity|].
  cbn [orb] in H. now rewrite (opchar_not_quote _ H), H.
Qed.

Lemma tokenize_loop_span room q body p :
  is_quote q = true ->
  string_forall (fun c => negb (Ascii.eqb c q)) body = true ->
  word_ends p = true ->
  tokenize_loop (S room) (String q (String.append body (String q p)))
    = unquote body :: tokenize_loop room p.
Proof.
  intros Hq Hbody Hp. cbn [tokenize_loop].
  rewrite (skip_blanks_plain _ _ (quote_not_blank _ Hq)), (quote_not_opchar _ Hq).
  cbn [scan_word]. rewrite (quote_not_blank _ Hq), Hq.
  rewrite (scan_word_span _ _ _ Hbody), (scan_word_ends _ Hp).
  cbn [strip_quotes]. rewrite Hq, strip_quotes_app. cbn [strip_quotes].
  now rewrite Hq, append_nil_r, strip_quotes_unquote.
Qed.

(** *** The tokens of a line without unquoted operators are its words *)

Lemma word_snoc_some pre c :
  word_snoc (Some pre) c = Some (String.append pre (String c EmptyString)).
Proof. reflexivity. Qed.

Lemma append_snoc pre c w :
  String.append (String.append pre (String c EmptyString)) w
    = String.append pre (String c w).
Proof. now rewrite append_assoc'. Qed.

Lemma split_words_scan s : forall q pre,
  unquoted_op_free q s = true ->
  split_words q (Some pre) s =
    String.append pre (scan_word q s).1 :: split_words None None (scan_word q s).2.
Proof.
  induction s as [|c s IH]; intros q pre Hfree.
  - cbn. now rewrite append_nil_r.
  - cbn [split_words scan_word unquoted_op_free] in *. destruct q as [q|].
    + rewrite word_snoc_some.
      destruct (Ascii.eqb c q); rewrite (IH _ _ Hfree);
        destruct (scan_word _ s) as [w r]; cbn [fst snd];
        now rewrite append_snoc.
    + destruct (is_blank c) eqn:Hb.
      * cbn [fst snd word_close app split_words]. rewrite Hb.
        now rewrite append_nil_r.
      * rewrite word_snoc_some. destruct (is_quote c) eqn:Hq.
        -- rewrite (IH _ _ Hfree). destruct (scan_word _ s) as [w r];
             cbn [fst snd]. now rewrite append_snoc.
        -- apply andb_true_iff in Hfree as [Ho Hfree].
           apply negb_true_iff in Ho. rewrite Ho, (IH _ _ Hfree).
           destruct (scan_word _ s) as [w r]; cbn [fst snd].
           now rewrite append_snoc.
Qed.

Lemma unquoted_op_free_scan s : forall q,
  unquoted_op_free None (scan_word q s).2 = unquoted_op_free q s.
Proof.
  induction s as [|c s IH]; intros q; [now destruct q|].
  cbn [scan_word unquoted_op_free]. destruct q as [q|].
  - destruct (Ascii.eqb c q); rewrite <- IH; now destruct (scan_word _ s).
  - destruct (is_blank c) eqn:Hb; [cbn [snd unquoted_op_free]; now rewrite Hb|].
    destruct (is_quote c) eqn:Hq.
    + rewrite <- IH; now destruct (scan_word _ s).
    + destruct (is_opchar c) eqn:Ho.
      * cbn [snd unquoted_op_free]. now rewrite Hb, Hq, Ho.
      * cbn [negb andb]. rewrite <- IH; now destruct (scan_word _ s).
Qed.

Lemma skip_blanks_head p c p1 :
  skip_blanks p = String c p1 -> is_blank c = false.
Proof.
  induction p as [|a p IH]; cbn [skip_blanks]; [discriminate|].
  destruct (is_blank a) eqn:Ha; [exact IH|]. intros H; now inversion H; subst.
Qed.

Lemma split_words_skip_blanks p :
  split_words None None (skip_blanks p) = split_words None None p.
Proof.
  induction p as [|a p IH]; [reflexivity|]. cbn [skip_blanks split_words].
  destruct (is_blank a) eqn:Ha; [exact IH|]. cbn [split_words]. now rewrite Ha.
Qed.

Lemma unquoted_op_free_skip_blanks p :
  unquoted_op_free None (skip_blanks p) = unquoted_op_free None p.
Proof.
  induction p as [|a p IH]; [reflexivity|]. cbn [skip_blanks unquoted_op_free].
  destruct (is_blank a) eqn:Ha; [exact IH|]. cbn [unquoted_op_free]. now rewrite Ha.
Qed.

(** The first step of a word: the character under the cursor is
    neither a blank nor an operator. *)
Lemma scan_word_first c p1 :
  is_blank c = false -> is_opchar c = false ->
  scan_word None (String c p1) =
    let '(w, r) := scan_word (if is_quote c then Some c else None) p1 in
    (String c w, r).
Proof.
  intros Hb Ho. cbn [scan_word]. rewrite Hb, Ho. now destruct (is_quote c).
Qed.

Lemma opfree_head_not_op c p1 :
  is_blank c = false -> unquoted_op_free None (String c p1) = true ->
  is_opchar c = false /\
  unquoted_op_free (if is_quote c then Some c else None) p1 = true.
Proof.
  intros Hb. cbn [unquoted_op_free]. rewrite Hb.
  destruct (is_quote c) eqn:Hq.
  - intros H; split; [now apply quote_not_opchar | exact H].
  - intros H. apply andb_true_iff in H as [Ho H].
    apply negb_true_iff in Ho. now split.
Qed.

Lemma tokenize_loop_words room : forall p,
  unquoted_op_free None p = true ->
  tokenize_loop room p = take room (spec_words p).
Proof.
  unfold spec_words.
  induction room as [|room IH]; intros p Hfree; [reflexivity|].
  cbn [tokenize_loop]. destruct p as [|c0 p0]; [reflexivity|].
  rewrite <- split_words_skip_blanks.
  rewrite <- unquoted_op_free_skip_blanks in Hfree.
  destruct (skip_blanks (String c0 p0)) as [|c p1] eqn:Hskip; [reflexivity|].
  pose proof (skip_blanks_head _ _ _ Hskip) as Hb.
  destruct (opfree_head_not_op _ _ Hb Hfree) as [Ho Hfree1].
  rewrite Ho, (scan_word_first _ _ Hb Ho).
  cbn [split_words]. rewrite Hb.
  change (word_snoc None c) with (Some (String c EmptyString)).
  rewrite (split_words_scan _ _ _ Hfree1).
  pose proof (unquoted_op_free_scan p1 (if is_quote c then Some c else None)) as Hr.
  rewrite Hfree1 in Hr.
  destruct (scan_word _ p1) as [w r]. cbn [fst snd] in *.
  cbn [map take String.append]. rewrite strip_quotes_unquote, (IH r Hr).
  reflexivity.
Qed.

End QuotingFacts.

Section PlainLines.

Lemma opchar_token c :
  is_opchar c = true -> is_operator_token (String c EmptyString) = true.
Proof.
  unfold is_opchar; intros H.
  repeat (apply orb_true_iff in H as [H|H]);
    apply Ascii.eqb_eq in H; subst c; reflexivity.
Qed.

Lemma skip_blanks_length p :
  (String.length (skip_blanks p) <= String.length p)%nat.
Proof.
  induction p as [|a p IH]; cbn [skip_blanks String.length]; [lia|].
  destruct (is_blank a); cbn [String.length]; lia.
Qed.

Lemma scan_word_length s : forall q,
  (String.length (scan_word q s).2 <= String.length s)%nat.
Proof.
  induction s as [|c s IH]; intros q; [cbn; lia|].
  cbn [scan_word]. destruct q as [q|].
  - destruct (Ascii.eqb c q);
      [specialize (IH None) | specialize (IH (Some q))];
      destruct (scan_word _ s); cbn [snd String.length] in *; lia.
  - destruct (is_blank c); [cbn; lia|].
    destruct (is_quote c).
    + specialize (IH (Some c)); destruct (scan_word _ s);
        cbn [snd String.length] in *; lia.
    + destruct (is_opchar c); [cbn; lia|].
      specialize (IH None); destruct (scan_word _ s);
        cbn [snd String.length] in *; lia.
Qed.

(** With room for every token, a token sequence without operator
    tokens means that no operator character stands outside quotes. *)
Lemma no_operator_tokens_opfree room : forall p,
  (String.length p < room)%nat ->
  forallb (fun t => negb (is_operator_token t)) (tokenize_loop room p) = true ->
  unquoted_op_free None p = true.
Proof.
  induction room as [|room IH]; intros p Hlen Htok; [lia|].
  cbn [tokenize_loop] in Htok. destruct p as [|c0 p0]; [reflexivity|].
  rewrite <- unquoted_op_free_skip_blanks.
  pose proof (skip_blanks_length (String c0 p0)) as Hsk.
  destruct (skip_blanks (String c0 p0)) as [|c p1] eqn:Hskip; [reflexivity|].
  pose proof (skip_blanks_head _ _ _ Hskip) as Hb.
  destruct (is_opchar c) eqn:Ho.
  - exfalso. destruct p1 as [|c1 p2].
    + cbn [forallb] in Htok. now rewrite (opchar_token _ Ho) in Htok.
    + destruct (Ascii.eqb c ">" && Ascii.eqb c1 ">"); cbn [forallb] in Htok;
        [discriminate | now rewrite (opchar_token _ Ho) in Htok].
  - rewrite (scan_word_first _ _ Hb Ho) in Htok.
    pose proof (unquoted_op_free_scan p1 (if is_quote c then Some c else None)) as Hr.
    pose proof (scan_word_length p1 (if is_quote c then Some c else None)) as Hl.
    destruct (scan_word _ p1) as [w r]. cbn [fst snd forallb] in *.
    apply andb_true_iff in Htok as [_ Htok].
    cbn [unquoted_op_free]. rewrite Hb.
    cbn [String.length] in *.
    assert (Hfree : unquoted_op_free None r = true) by (apply IH; [lia | exact Htok]).
    rewrite Hfree in Hr.
    destruct (is_quote c); [now symmetry|]. rewrite Ho. cbn [negb andb].
    now symmetry.
Qed.

Lemma c_str_length s : (String.length (c_str s) <= String.length s)%nat.
Proof.
  induction s as [|c s IH]; cbn [c_str String.length]; [lia|].
  destruct (Ascii.eqb c NUL); cbn [String.length]; lia.
Qed.

Lemma split_words_length s : forall q cur,
  (length (split_words q cur s)
     <= String.length s + length (word_close cur))%nat.
Proof.
  induction s as [|c s IH]; intros q cur; cbn [split_words String.length];
    [lia|].
  destruct q as [q|].
  - specialize (IH (if Ascii.eqb c q then None else Some q) (word_snoc cur c)).
    cbn [word_snoc word_close length] in IH. lia.
  - destruct (is_blank c).
    + rewrite length_app. specialize (IH None None).
      cbn [word_close length] in IH. lia.
    + specialize (IH (if is_quote c then Some c else None) (word_snoc cur c)).
      cbn [word_snoc word_close length] in IH. lia.
Qed.

Lemma spec_words_length s : (length (spec_words s) <= String.length s)%nat.
Proof.
  unfold spec_words. rewrite length_map.
  pose proof (split_words_length s None None) as H.
  cbn [word_close length] in H. lia.
Qed.

Lemma all_tokens_words line :
  no_operator_tokens line = true ->
  unquoted_op_free None (c_str line) = true /\
  all_tokens line = spec_words (c_str line).
Proof.
  unfold no_operator_tokens, all_tokens, tokenize. intros H.
  replace (Z.to_nat (Z.of_nat (S (S (String.length line))) - 1))
    with (S (String.length line)) in * by lia.
  pose proof (c_str_length line) as Hc.
  assert (Hfree : unquoted_op_free None (c_str line) = true)
    by (apply (no_operator_tokens_opfree (S (String.length line))); [lia | exact H]).
  split; [exact Hfree|].
  rewrite (tokenize_loop_words _ _ Hfree). apply take_ge.
  pose proof (spec_words_length (c_str line)). lia.
Qed.

(** C3 (as amended).  A span opened by a quote character and closed by
    the same character goes into the token whole, blanks and operator
    characters included, and the token text is the span without quote
    characters (the span itself when it holds none).  For a line
    without operator tokens that has fewer than [MAX_TOKENS] words, the
    parser yields one stage, without redirections and in the
    foreground, whose argument vector is the list of the line's
    whitespace-split, quote-stripped words. *)
Theorem C3_quoting_and_plain_lines :
  (forall room q body p,
      is_quote q = true ->
      string_forall (fun c => negb (Ascii.eqb c q)) body = true ->
      word_ends p = true ->
      tokenize_loop (S room) (String q (String.append body (String q p)))
        = unquote body :: tokenize_loop room p) /\
  (forall body,
      string_forall (fun c => negb (is_quote c)) body = true ->
      unquote body = body) /\
  (forall line,
      no_operator_tokens line = true ->
      Z.of_nat (length (spec_words (c_str line))) < MAX_TOKENS ->
      tokenize line MAX_TOKENS = spec_words (c_str line) /\
      parse_commands (tokenize line MAX_TOKENS)
        = ParseOk [plain_stage (spec_words (c_str line))] false).
Proof.
  split; [exact tokenize_loop_span|]. split.
  - intros body H. rewrite <- strip_quotes_unquote. now apply strip_quotes_verbatim.
  - intros line Hno Hlen.
    destruct (all_tokens_words _ Hno) as [Hfree Hall].
    assert (Htok : tokenize line MAX_TOKENS = spec_words (c_str line)).
    { unfold tokenize. rewrite (tokenize_loop_words _ _ Hfree).
      apply take_ge. unfold MAX_TOKENS in *. lia. }
    split; [exact Htok|]. rewrite Htok.
    unfold no_operator_tokens in Hno. rewrite Hall in Hno.
    unfold parse_commands.
    rewrite <- (app_nil_r (spec_words (c_str line))) at 1.
    rewrite parse_loop_words.
    + rewrite parse_loop_end; [reflexivity|].
      cbn [push_args argv empty_cmd app]. exact Hlen.
    + apply Forall_forall. intros t Ht.
      rewrite forallb_forall in Hno. apply negb_true_iff, Hno.
      now apply list_elem_of_In.
    + cbn [argv empty_cmd length]. lia.
Qed.

Lemma C3_quoting_and_plain_lines_witness :
  tokenize_loop 3 "'a | b' c" = unquote "a | b" :: tokenize_loop 2 " c" /\
  parse_commands (tokenize "echo 'a | b'  c" MAX_TOKENS)
    = ParseOk [plain_stage (spec_words (c_str "echo 'a | b'  c"))] false.
Proof.
  destruct C3_quoting_and_plain_lines as (Hspan & _ & Hline). split.
  - apply (Hspan 2%nat "'"%char "a | b" " c"); reflexivity.
  - apply (Hline "echo 'a | b'  c"); reflexivity.
Defined.

(** A line of 256 words has no operator tokens, but only its first 255
    words reach the stage. *)
Lemma C3_counterexample :
  no_operator_tokens (many_words 256) = true /\
  length (spec_words (c_str (many_words 256))) = 256%nat /\
  length (tokenize (many_words 256) MAX_TOKENS) = 255%nat /\
  parse_commands (tokenize (many_words 256) MAX_TOKENS)
    <> ParseOk [plain_stage (spec_words (c_str (many_words 256)))] false.
Proof.
  split; [vm_compute; reflexivity|].
  split; [vm_compute; reflexivity|].
  split; [vm_compute; reflexivity|].
  intros H.
  apply (f_equal (fun r => match r with
                           | ParseOk [c] _ => Nat.eqb (length (argv c)) 256
                           | _ => false
                           end)) in H.
  vm_compute in H. discriminate.
Qed.

End PlainLines.

(** ** The stage limit and the read loop *)

Section StageLimitOfLines.

Lemma tokenize_loop_take room : forall k p,
  tokenize_loop room p = take room (tokenize_loop (room + k) p).
Proof.
  induction room as [|room IH]; intros k p; [reflexivity|].
  cbn [Nat.add tokenize_loop].
  destruct p as [|c0 p0]; [reflexivity|].
  destruct (skip_blanks (String c0 p0)) as [|c p1]; [reflexivity|].
  destruct (is_opchar c).
  - destruct p1 as [|c1 p2].
    + cbn [take]. now rewrite <- IH.
    + destruct (Ascii.eqb c ">" && Ascii.eqb c1 ">"); cbn [take];
        now rewrite <- IH.
  - destruct (scan_word None (String c p1)) as [w r]. cbn [take].
    now rewrite <- IH.
Qed.






End StageLimitOfLines.

(** ** Descriptor tables *)

Section DescriptorFacts.

Lemma fd_get_nil fd : fd_get [] fd = None.
Proof. now destruct fd. Qed.

Lemma fd_get_put t a v b :
  fd_get (fd_put t a v) b = if Nat.eqb a b then v else fd_get t b.
Proof.
  revert t b; induction a as [|a IH]; intros [|o t] [|b];
    cbn [fd_put fd_get Nat.eqb]; rewrite ?IH, ?fd_get_nil; reflexivity.
Qed.

Lemma lowest_free_closed t : fd_get t (lowest_free t) = None.
Proof.
  induction t as [|[o|] t IH]; cbn [lowest_free fd_get]; auto.
Qed.

Lemma lowest_free_not_open t fd o :
  fd_get t fd = Some o -> lowest_free t <> fd.
Proof. intros H E. rewrite <- E, lowest_free_closed in H. discriminate. Qed.

Lemma sys_close_get t p x :
  fd_get (sys_close t p) x = if Nat.eqb p x then None else fd_get t x.
Proof. apply fd_get_put. Qed.

Lemma sys_dup2_open t old new o :
  fd_get t old = Some o -> sys_dup2 t old new = fd_put t new (Some o).
Proof. unfold sys_dup2; now intros ->. Qed.

(** [pipe] hands out two distinct descriptors that were closed. *)
Lemma sys_pipe_spec t k t1 r w :
  sys_pipe t k = (t1, r, w) ->
  fd_get t r = None /\ fd_get t w = None /\ r <> w /\
  forall x, fd_get t1 x =
    if Nat.eqb w x then Some (PipeWrite k)
    else if Nat.eqb r x then Some (PipeRead k) else fd_get t x.
Proof.
  unfold sys_pipe; intros H; inversion H; subst; clear H.
  set (r := lowest_free t).
  set (t' := fd_put t r (Some (PipeRead k))).
  assert (Hr : fd_get t r = None) by apply lowest_free_closed.
  assert (Hw : fd_get t' (lowest_free t') = None) by apply lowest_free_closed.
  unfold t' in Hw at 1. rewrite fd_get_put in Hw.
  destruct (Nat.eqb_spec r (lowest_free t')) as [E|E]; [discriminate|].
  repeat split; try assumption.
  intros x. unfold t'. now rewrite !fd_get_put.
Qed.

(** The open-dup2-close sequence of a redirection. *)
Lemma redirect_get s t path mode t' fd tgt x :
  sys_open s t path mode = Some (t', fd) ->
  fd_get t fd = None /\
  fd_get (sys_close (sys_dup2 t' fd tgt) fd) x =
    if Nat.eqb fd x then None
    else if Nat.eqb tgt x then Some (OpenedFile path mode) else fd_get t x.
Proof.
  unfold sys_open. destruct (open_ok s path mode); [|discriminate].
  intros H; inversion H; subst; clear H.
  split; [apply lowest_free_closed|].
  rewrite sys_close_get.
  rewrite (sys_dup2_open _ _ _ (OpenedFile path mode))
    by (rewrite fd_get_put, Nat.eqb_refl; reflexivity).
  rewrite !fd_get_put.
  destruct (Nat.eqb_spec (lowest_free t) x); [reflexivity|].
  now destruct (Nat.eqb_spec tgt x).
Qed.

End DescriptorFacts.

(** ** The child's descriptors *)

Section ChildFacts.

Variables (s : sys) (i n : nat).

Lemma redirect_preserves t path mode t' fd tgt rd :
  sys_open s t path mode = Some (t', fd) ->
  let t'' := sys_close (sys_dup2 t' fd tgt) fd in
  (wired_pipes_ok i n rd t -> wired_pipes_ok i n rd t'') /\
  (std_in_out_open t -> (tgt < 2)%nat ->
     std_in_out_open t'' /\
     forall y o, y <> tgt -> (y < 2)%nat -> fd_get t y = Some o ->
                 fd_get t'' y = Some o).
Proof.
  intros Hopen t''. split.
  - intros Hok x o Hx Hpipe. unfold t'' in Hx.
    destruct (redirect_get _ _ _ _ _ _ tgt x Hopen) as [_ Hget].
    rewrite Hget in Hx.
    destruct (Nat.eqb fd x); [discriminate|].
    destruct (Nat.eqb tgt x); [inversion Hx; subst; discriminate|].
    now apply Hok.
  - intros [[o0 H0] [o1 H1]] Htgt.
    destruct (redirect_get _ _ _ _ _ _ tgt 0%nat Hopen) as [Hfd G0].
    destruct (redirect_get _ _ _ _ _ _ tgt 1%nat Hopen) as [_ G1].
    assert (fd <> 0%nat) by (intros ->; unfold STDIN_FILENO in H0; congruence).
    assert (fd <> 1%nat) by (intros ->; unfold STDOUT_FILENO in H1; congruence).
    fold t'' in G0, G1. unfold std_in_out_open, STDIN_FILENO, STDOUT_FILENO in *.
    destruct (Nat.eqb_spec fd 0); [congruence|].
    destruct (Nat.eqb_spec fd 1); [congruence|].
    split.
    + rewrite G0, G1, H0, H1.
      destruct (Nat.eqb tgt 0), (Nat.eqb tgt 1); split; eexists; reflexivity.
    + intros y o Hy Hlt Hget.
      assert (Hy01 : y = 0%nat \/ y = 1%nat) by lia.
      destruct Hy01; subst y.
      * rewrite G0. destruct (Nat.eqb_spec tgt 0); [congruence | exact Hget].
      * rewrite G1. destruct (Nat.eqb_spec tgt 1); [congruence | exact Hget].
Qed.

Variables (t1 : fd_table) (prev_fd pipe_rd pipe_wr : option nat).
Hypothesis Hfork : at_fork i n t1 prev_fd pipe_rd pipe_wr.

(** After lines 235-242 the child holds the pipe ends it uses as its
    standard streams and, besides, only the read end of its own pipe. *)
Lemma child_wiring :
  let ta := match prev_fd with
            | Some p => sys_close (sys_dup2 t1 p STDIN_FILENO) p
            | None => t1
            end in
  let tb := match pipe_wr with
            | Some w => sys_close (sys_dup2 ta w STDOUT_FILENO) w
            | None => ta
            end in
  wired_pipes_ok i n pipe_rd tb /\ std_in_out_open tb /\
  ((0 < i)%nat -> fd_get tb STDIN_FILENO = Some (PipeRead (i - 1))) /\
  ((S i < n)%nat -> fd_get tb STDOUT_FILENO = Some (PipeWrite i)).
Proof.
  intros ta tb.
  destruct Hfork as ((H0 & H1 & H2) & Hbase & Hprev & Hrd & Hwr & Hpi & Hwn & Hrn).
  unfold wired_pipes_ok, std_in_out_open in *.
  unfold STDIN_FILENO, STDOUT_FILENO in *.
  (* the table after the standard input is wired *)
  assert (Ha : forall x, fd_get ta x =
            match prev_fd with
            | Some p => if Nat.eqb p x then None
                        else if Nat.eqb 0 x then Some (PipeRead (i - 1))
                        else fd_get t1 x
            | None => fd_get t1 x
            end).
  { intros x. unfold ta. destruct prev_fd as [p|]; [|reflexivity].
    destruct (Hprev p eq_refl) as [Hp _].
    now rewrite sys_close_get, (sys_dup2_open _ _ _ _ Hp), fd_get_put. }
  assert (Hb : forall x, fd_get tb x =
            match pipe_wr with
            | Some w => if Nat.eqb w x then None
                        else if Nat.eqb 1 x then Some (PipeWrite i)
                        else fd_get ta x
            | None => fd_get ta x
            end).
  { intros x. unfold tb. destruct pipe_wr as [w|]; [|reflexivity].
    destruct (Hwr w eq_refl) as [Hw Hw2].
    assert (Haw : fd_get ta w = Some (PipeWrite i)).
    { rewrite Ha. destruct prev_fd as [p|]; [|exact Hw].
      destruct (Hprev p eq_refl) as [Hp Hp2].
      destruct (Nat.eqb_spec p w); [subst; congruence|].
      destruct (Nat.eqb_spec 0 w); [lia | exact Hw]. }
    now rewrite sys_close_get, (sys_dup2_open _ _ _ _ Haw), fd_get_put. }
  clearbody ta tb.
  assert (Ha0 : fd_get ta 0 = match prev_fd with
                              | Some _ => Some (PipeRead (i - 1))
                              | None => fd_get t1 0
                              end).
  { rewrite Ha. destruct prev_fd as [p|]; [|reflexivity].
    destruct (Hprev p eq_refl) as [_ Hp2].
    destruct (Nat.eqb_spec p 0); [lia | reflexivity]. }
  assert (Ha1 : fd_get ta 1 = fd_get t1 1).
  { rewrite Ha. destruct prev_fd as [p|]; [|reflexivity].
    destruct (Hprev p eq_refl) as [_ Hp2].
    destruct (Nat.eqb_spec p 1); [lia | reflexivity]. }
  assert (Hb0 : fd_get tb 0 = fd_get ta 0).
  { rewrite Hb. destruct pipe_wr as [w|]; [|reflexivity].
    destruct (Hwr w eq_refl) as [_ Hw2].
    destruct (Nat.eqb_spec w 0); [lia | reflexivity]. }
  assert (Hb1 : fd_get tb 1 = match pipe_wr with
                              | Some _ => Some (PipeWrite i)
                              | None => fd_get t1 1
                              end).
  { rewrite Hb. destruct pipe_wr as [w|]; [|exact Ha1].
    destruct (Hwr w eq_refl) as [_ Hw2].
    destruct (Nat.eqb_spec w 1); [lia | reflexivity]. }
  split; [|split; [split|split]].
  - intros x o Hx Hpipe. rewrite Hb in Hx.
    assert (Hta : fd_get ta x = Some o ->
              (x = 0%nat /\ o = PipeRead (i - 1) /\ (0 < i)%nat) \/
              (pipe_rd = Some x /\ o = PipeRead i) \/
              (pipe_wr = Some x /\ o = PipeWrite i)).
    { rewrite Ha. destruct prev_fd as [p|].
      - destruct (Nat.eqb_spec p x); [discriminate|].
        destruct (Nat.eqb_spec 0 x).
        + intros E; inversion E; subst. left.
          repeat split. apply Hpi. now eexists.
        + intros E. destruct (Hbase _ _ E Hpipe) as [[E' _]|[?|?]];
            [congruence | auto | auto].
      - intros E. destruct (Hbase _ _ E Hpipe) as [[E' _]|[?|?]];
          [congruence | auto | auto]. }
    destruct pipe_wr as [w|].
    + destruct (Nat.eqb_spec w x); [discriminate|].
      destruct (Nat.eqb_spec 1 x).
      * inversion Hx; subst. right; left. repeat split.
        apply Hwn. now eexists.
      * destruct (Hta Hx) as [?|[?|[E _]]]; [auto | auto | congruence].
    + destruct (Hta Hx) as [?|[?|[E _]]]; [auto | auto | congruence].
  - rewrite Hb0, Ha0. destruct prev_fd; [now eexists | exact H0].
  - rewrite Hb1. destruct pipe_wr; [now eexists | exact H1].
  - intros Hi. apply Hpi in Hi as [p Hp]. rewrite Hb0, Ha0. now subst prev_fd.
  - intros Hn. apply Hwn in Hn as [w Hw]. rewrite Hb1. now subst pipe_wr.
Qed.

(** What [run_child] hands to [execvp]. *)
Lemma run_child_exec c t args :
  run_child s t1 prev_fd pipe_rd pipe_wr c = ChildExec t args ->
  child_pipes_ok i n t /\
  ((0 < i)%nat -> infile c = None ->
     fd_get t STDIN_FILENO = Some (PipeRead (i - 1))) /\
  ((S i < n)%nat -> outfile c = None ->
     fd_get t STDOUT_FILENO = Some (PipeWrite i)).
Proof.
  unfold run_child.
  pose proof child_wiring as Hw. cbv zeta in Hw.
  set (tb := match pipe_wr with
             | Some w => sys_close (sys_dup2 _ w STDOUT_FILENO) w
             | None => _
             end) in *.
  clearbody tb. destruct Hw as (Hok & Hopen & Hin & Hout).
  (* input redirection *)
  set (after_in := match infile c with Some _ => _ | None => _ end).
  assert (Hc : forall tc, after_in = Some tc ->
            wired_pipes_ok i n pipe_rd tc /\ std_in_out_open tc /\
            ((0 < i)%nat -> infile c = None ->
               fd_get tc STDIN_FILENO = Some (PipeRead (i - 1))) /\
            ((S i < n)%nat -> fd_get tc STDOUT_FILENO = Some (PipeWrite i))).
  { intros tc. unfold after_in. destruct (infile c) as [path|].
    - destruct (sys_open s tb path ReadOnly) as [[t' fd]|] eqn:Ho; [|discriminate].
      intros E; inversion E; subst tc; clear E.
      destruct (redirect_preserves _ _ _ _ _ STDIN_FILENO pipe_rd Ho)
        as [Hp Hq].
      destruct Hq as [Hopen' Hkeep]; [assumption | unfold STDIN_FILENO; lia|].
      split; [now apply Hp|]. split; [assumption|]. split; [discriminate|].
      intros Hn. apply (Hkeep STDOUT_FILENO); unfold STDOUT_FILENO, STDIN_FILENO;
        [lia | lia | now apply Hout].
    - intros E; inversion E; subst tc. auto. }
  clearbody after_in. destruct after_in as [tc|]; [|discriminate].
  destruct (Hc tc eq_refl) as (Hokc & Hopenc & Hinc & Houtc). clear Hc.
  (* output redirection *)
  set (after_out := match outfile c with Some _ => _ | None => _ end).
  assert (Hd : forall td, after_out = Some td ->
            wired_pipes_ok i n pipe_rd td /\
            ((0 < i)%nat -> infile c = None ->
               fd_get td STDIN_FILENO = Some (PipeRead (i - 1))) /\
            ((S i < n)%nat -> outfile c = None ->
               fd_get td STDOUT_FILENO = Some (PipeWrite i))).
  { intros td. unfold after_out. destruct (outfile c) as [path|].
    - destruct (sys_open s tc path _) as [[t' fd]|] eqn:Ho; [|discriminate].
      intros E; inversion E; subst td; clear E.
      destruct (redirect_preserves _ _ _ _ _ STDOUT_FILENO pipe_rd Ho)
        as [Hp Hq].
      destruct Hq as [Hopen' Hkeep]; [assumption | unfold STDOUT_FILENO; lia|].
      split; [now apply Hp|]. split; [|discriminate].
      intros Hi Hnone. apply (Hkeep STDIN_FILENO);
        unfold STDOUT_FILENO, STDIN_FILENO; [lia | lia | now apply Hinc].
    - intros E; inversion E; subst td. auto. }
  clearbody after_out. destruct after_out as [td|]; [|discriminate].
  destruct (Hd td eq_refl) as (Hokd & Hind & Houtd). clear Hd.
  (* the read end of the own pipe is closed last *)
  destruct Hfork as (_ & _ & _ & Hrd & _).
  destruct (argv c) as [|a0 rest]; [discriminate|].
  intros E; inversion E; subst t args; clear E.
  assert (He : forall x, fd_get (match pipe_rd with
                                 | Some r => sys_close td r
                                 | None => td
                                 end) x =
            match pipe_rd with
            | Some r => if Nat.eqb r x then None else fd_get td x
            | None => fd_get td x
            end).
  { intros x. destruct pipe_rd; [apply sys_close_get | reflexivity]. }
  set (te := match pipe_rd with Some r => sys_close td r | None => td end) in *.
  clearbody te. repeat split.
  - intros x o Hx Hpipe. rewrite He in Hx. destruct pipe_rd as [r|].
    + destruct (Nat.eqb_spec r x); [discriminate|].
      destruct (Hokd _ _ Hx Hpipe) as [?|[?|[E _]]]; [auto | auto | congruence].
    + destruct (Hokd _ _ Hx Hpipe) as [?|[?|[E _]]]; [auto | auto | congruence].
  - intros Hi Hnone. rewrite He. destruct pipe_rd as [r|]; [|auto].
    destruct (Hrd r eq_refl) as [_ Hr2]. unfold STDIN_FILENO in *.
    destruct (Nat.eqb_spec r 0); [lia | auto].
  - intros Hn Hnone. rewrite He. destruct pipe_rd as [r|]; [|auto].
    destruct (Hrd r eq_refl) as [_ Hr2]. unfold STDOUT_FILENO in *.
    destruct (Nat.eqb_spec r 1); [lia | auto].
Qed.

End ChildFacts.

(** ** The parent's descriptors *)

Section ParentFacts.

Variables (s : sys) (n : nat).

Lemma std_open_above t fd :
  std_open t -> fd_get t fd = None -> (2 < fd)%nat.
Proof.
  intros ([o0 H0] & [o1 H1] & [o2 H2]) Hfd.
  destruct fd as [|[|[|fd]]]; [congruence | congruence | congruence | lia].
Qed.

Lemma at_fork_last i t prev_fd :
  n = S i -> parent_inv i t prev_fd -> at_fork i n t prev_fd None None.
Proof.
  intros -> (Hstd & Hbase & Hprev & Hpi).
  split; [exact Hstd|]. split; [|split; [exact Hprev|]].
  - intros fd o Hfd Hpipe. left. now apply Hbase.
  - split; [discriminate|]. split; [discriminate|]. split; [exact Hpi|].
    split; (split; [intros [? ?]; discriminate | lia]).
Qed.

Lemma at_fork_piped i t prev_fd t1 r w :
  (S i < n)%nat -> parent_inv i t prev_fd -> sys_pipe t i = (t1, r, w) ->
  at_fork i n t1 prev_fd (Some r) (Some w).
Proof.
  intros Hn (Hstd & Hbase & Hprev & Hpi) Hpipe.
  destruct (sys_pipe_spec _ _ _ _ _ Hpipe) as (Hr & Hw & Hrw & Hget).
  pose proof (std_open_above _ _ Hstd Hr) as Hr2.
  pose proof (std_open_above _ _ Hstd Hw) as Hw2.
  assert (Hlow : forall x, (x < 3)%nat -> fd_get t1 x = fd_get t x).
  { intros x Hx. rewrite Hget.
    destruct (Nat.eqb_spec w x); [lia|]. destruct (Nat.eqb_spec r x); [lia|].
    reflexivity. }
  split; [|split; [|split; [|split; [|split]]]].
  - destruct Hstd as (H0 & H1 & H2). unfold std_open.
    rewrite !Hlow by lia. auto.
  - intros fd o Hfd Hp. rewrite Hget in Hfd.
    destruct (Nat.eqb_spec w fd); [inversion Hfd; subst; auto|].
    destruct (Nat.eqb_spec r fd); [inversion Hfd; subst; auto|].
    left. now apply Hbase.
  - intros p Hp. destruct (Hprev p Hp) as [Hg Hp2]. split; [|exact Hp2].
    rewrite Hget.
    destruct (Nat.eqb_spec w p); [subst; congruence|].
    destruct (Nat.eqb_spec r p); [subst; congruence|]. exact Hg.
  - intros r' E; inversion E; subst r'. split; [|exact Hr2].
    rewrite Hget. destruct (Nat.eqb_spec w r); [congruence|].
    now rewrite Nat.eqb_refl.
  - intros w' E; inversion E; subst w'. split; [|exact Hw2].
    rewrite Hget. now rewrite Nat.eqb_refl.
  - split; [exact Hpi|]. split; (split; [intros _; exact Hn | now eexists]).
Qed.

Lemma parent_closes_get t prev_fd pipe_wr x :
  fd_get (parent_closes t prev_fd pipe_wr) x =
    if match pipe_wr with Some w => Nat.eqb w x | None => false end then None
    else if match prev_fd with Some p => Nat.eqb p x | None => false end
         then None
         else fd_get t x.
Proof.
  unfold parent_closes.
  destruct pipe_wr as [w|], prev_fd as [p|]; rewrite ?sys_close_get; reflexivity.
Qed.

(** After its closes the parent holds one pipe end at most: the read
    end of the pipe just made, which becomes [prev_fd]. *)
Lemma parent_after i t1 prev_fd pipe_rd pipe_wr :
  at_fork i n t1 prev_fd pipe_rd pipe_wr ->
  let t3 := parent_closes t1 prev_fd pipe_wr in
  parent_pipes_ok i n t3 /\
  std_open t3 /\
  (forall r, pipe_rd = Some r -> parent_inv (S i) t3 pipe_rd).
Proof.
  intros (Hstd & Hbase & Hprev & Hrd & Hwr & Hpi & Hwn & Hrn) t3.
  assert (Hlow : forall x, (x < 3)%nat -> fd_get t3 x = fd_get t1 x).
  { intros x Hx. unfold t3. rewrite parent_closes_get.
    destruct pipe_wr as [w|]; [destruct (Hwr w eq_refl) as [_ ?];
      destruct (Nat.eqb_spec w x); [lia|]|];
    (destruct prev_fd as [p|]; [destruct (Hprev p eq_refl) as [_ ?];
      destruct (Nat.eqb_spec p x); [lia|]|]); reflexivity. }
  assert (Hpipes : forall x o, fd_get t3 x = Some o -> is_pipe_end o = true ->
            pipe_rd = Some x /\ o = PipeRead i).
  { intros x o Hx Hp. unfold t3 in Hx. rewrite parent_closes_get in Hx.
    destruct pipe_wr as [w|].
    - destruct (Nat.eqb_spec w x); [discriminate|].
      destruct prev_fd as [p|].
      + destruct (Nat.eqb_spec p x); [discriminate|].
        destruct (Hbase _ _ Hx Hp) as [[E _]|[?|[E _]]]; [congruence | auto | congruence].
      + destruct (Hbase _ _ Hx Hp) as [[E _]|[?|[E _]]]; [congruence | auto | congruence].
    - destruct prev_fd as [p|].
      + destruct (Nat.eqb_spec p x); [discriminate|].
        destruct (Hbase _ _ Hx Hp) as [[E _]|[?|[E _]]]; [congruence | auto | congruence].
      + destruct (Hbase _ _ Hx Hp) as [[E _]|[?|[E _]]]; [congruence | auto | congruence]. }
  assert (Hstd3 : std_open t3).
  { destruct Hstd as (H0 & H1 & H2). unfold std_open.
    rewrite !Hlow by lia. auto. }
  split; [|split; [exact Hstd3|]].
  - intros x o Hx Hp. destruct (Hpipes _ _ Hx Hp) as [E ->].
    split; [reflexivity|]. apply Hrn. rewrite E. now eexists.
  - intros r Hr. unfold parent_inv. replace (S i - 1)%nat with i by lia.
    split; [exact Hstd3 | split; [exact Hpipes | split]].
    + intros r' Hr'. rewrite Hr in Hr'; inversion Hr'; subst r'.
      destruct (Hrd r Hr) as [Hg Hr2]. split; [|exact Hr2].
      unfold t3. rewrite parent_closes_get.
      destruct pipe_wr as [w|]; [destruct (Hwr w eq_refl) as [Hgw _];
        destruct (Nat.eqb_spec w r); [subst; congruence|]|];
      (destruct prev_fd as [p|]; [destruct (Hprev p eq_refl) as [Hgp _];
        destruct (Nat.eqb_spec p r);
          [subst; rewrite Hg in Hgp; inversion Hgp;
           assert (0 < i)%nat by (apply Hpi; now eexists); lia|]|]);
      exact Hg.
    + split; [intros _; lia | intros _; rewrite Hr; now eexists].
Qed.

End ParentFacts.

(** ** Descriptor discipline of the executor *)

Section Discipline.

Variable s : sys.

Lemma spawn_loop_log_length : forall cmds i t prev lp,
  (length (sp_log (spawn_loop s cmds i t prev lp)) <= length cmds)%nat.
Proof.
  induction cmds as [|c rest IH]; intros i t prev lp; cbn [spawn_loop];
    [cbn; lia|].
  destruct rest as [|c' rest'].
  - destruct (fork_ret s i); cbn; lia.
  - destruct (pipe_ok s i); [|cbn; lia].
    destruct (sys_pipe t i) as [[t1 r] w].
    destruct (fork_ret s i) as [child|]; [|cbn; lia].
    cbn [sp_log length].
    specialize (IH (S i) (parent_closes t1 prev (Some w)) (Some r) (Z.pos child)).
    cbn [length] in IH. lia.
Qed.

Lemma spawn_loop_discipline : forall cmds i t prev lp,
  parent_inv i t prev ->
  forall j lg c,
    sp_log (spawn_loop s cmds i t prev lp) !! j = Some lg ->
    cmds !! j = Some c ->
    stage_ok (i + length cmds) (i + j) c lg.
Proof.
  induction cmds as [|c0 rest IH]; intros i t prev lp Hinv j lg c Hlg Hc;
    [discriminate|].
  cbn [spawn_loop] in Hlg.
  destruct rest as [|c1 rest'].
  - (* the last stage: no pipe is made *)
    destruct (fork_ret s i) as [child|]; [|discriminate].
    cbn [sp_log spawn_loop] in Hlg.
    destruct j as [|j]; [|discriminate].
    inversion Hlg; subst lg; clear Hlg. inversion Hc; subst c; clear Hc.
    assert (Hn : (i + length [c0] = S i)%nat) by (cbn [length]; lia).
    rewrite Hn, Nat.add_0_r.
    pose proof (at_fork_last (S i) i t prev eq_refl Hinv) as Hfork.
    destruct (parent_after _ _ _ _ _ _ Hfork) as (Hpar & Hstd3 & _).
    split; [exact Hpar|]. split; [exact Hstd3|]. split; [lia|].
    intros tc args Hexec. cbn [sl_child] in Hexec.
    exact (run_child_exec s i (S i) t prev None None Hfork c0 tc args Hexec).
  - (* a stage with a successor: a pipe is made first *)
    destruct (pipe_ok s i); [|discriminate].
    destruct (sys_pipe t i) as [[t1 r] w] eqn:Hpipe.
    destruct (fork_ret s i) as [child|]; [|discriminate].
    cbn [sp_log] in Hlg.
    set (n := (i + length (c0 :: c1 :: rest'))%nat).
    assert (Hn : (S i < n)%nat) by (unfold n; cbn [length]; lia).
    pose proof (at_fork_piped n i t prev t1 r w Hn Hinv Hpipe) as Hfork.
    destruct (parent_after _ _ _ _ _ _ Hfork) as (Hpar & Hstd3 & Hnext).
    specialize (Hnext r eq_refl).
    destruct j as [|j].
    + inversion Hlg; subst lg; clear Hlg. inversion Hc; subst c; clear Hc.
      rewrite Nat.add_0_r. split; [exact Hpar|]. split; [exact Hstd3|]. split.
      * intros _. exists r. destruct Hnext as (_ & _ & Hr & _).
        destruct (Hr r eq_refl) as [Hg _].
        now replace (S i - 1)%nat with i in Hg by lia.
      * intros tc args Hexec. cbn [sl_child] in Hexec.
        exact (run_child_exec s i n t1 prev (Some r) (Some w) Hfork c0 tc args Hexec).
    + cbn [lookup list_lookup] in Hlg, Hc.
      replace (i + S j)%nat with (S i + j)%nat by lia.
      replace n with (S i + length (c1 :: rest'))%nat
        by (unfold n; cbn [length]; lia).
      exact (IH (S i) _ (Some r) _ Hnext j lg c Hlg Hc).
Qed.

Lemma spawn_loop_final_fds : forall cmds i t prev lp last_pid,
  sp_end (spawn_loop s cmds i t prev lp) = SpawnedAll last_pid ->
  sp_fds (spawn_loop s cmds i t prev lp) =
    match last (sp_log (spawn_loop s cmds i t prev lp)) with
    | Some lg => sl_parent lg
    | None => t
    end.
Proof.
  induction cmds as [|c rest IH]; intros i t prev lp last_pid; [reflexivity|].
  cbn [spawn_loop]. destruct rest as [|c' rest'].
  - destruct (fork_ret s i); [reflexivity | discriminate].
  - destruct (pipe_ok s i); [|discriminate].
    destruct (sys_pipe t i) as [[t1 r] w].
    destruct (fork_ret s i) as [child|]; [|discriminate].
    cbn [sp_end sp_fds sp_log]. intros He.
    rewrite (IH _ _ _ _ _ He), last_cons.
    now destruct (last (sp_log _)).
Qed.

Lemma initial_parent_inv t0 :
  std_open t0 -> no_pipe_ends t0 -> parent_inv 0 t0 None.
Proof.
  intros Hstd Hno. split; [exact Hstd|]. split; [|split].
  - intros fd o Hfd Hp. rewrite (Hno _ _ Hfd) in Hp. discriminate.
  - discriminate.
  - split; [intros [? ?]; discriminate | lia].
Qed.

(** The discipline of the stage loop, from any table with the standard
    streams open and no pipe end. *)
Lemma spawn_loop_descriptor_discipline (cmds : list cmd_t) (t0 : fd_table) :
  std_open t0 -> no_pipe_ends t0 ->
  let n := length cmds in
  let r := spawn_loop s cmds 0 t0 None (-1) in
  (forall i lg c, sp_log r !! i = Some lg -> cmds !! i = Some c ->
     stage_ok n i c lg) /\
  (forall i k lg, sp_log r !! i = Some lg ->
     (forall fd, fd_get (sl_parent lg) fd <> Some (PipeWrite k)) /\
     (forall t args fd, sl_child lg = ChildExec t args ->
        fd_get t fd = Some (PipeWrite k) -> k = i /\ fd = STDOUT_FILENO)) /\
  (cmds <> [] -> launches s n ->
     length (sp_log r) = n /\ no_pipe_ends (sp_fds r) /\ std_open (sp_fds r)).
Proof.
  intros Hstd Hno n r.
  pose proof (initial_parent_inv _ Hstd Hno) as Hinv.
  assert (Hstage : forall i lg c, sp_log r !! i = Some lg -> cmds !! i = Some c ->
            stage_ok n i c lg).
  { intros i lg c Hlg Hc.
    exact (spawn_loop_discipline cmds 0 t0 None (-1) Hinv i lg c Hlg Hc). }
  split; [exact Hstage|]. split.
  - intros i k lg Hlg.
    assert (Hi : (i < length cmds)%nat).
    { apply lookup_lt_Some in Hlg.
      pose proof (spawn_loop_log_length cmds 0 t0 None (-1)). fold r in H. lia. }
    destruct (lookup_lt_is_Some_2 cmds i Hi) as [c Hc].
    destruct (Hstage i lg c Hlg Hc) as (Hpar & _ & _ & Hchild). split.
    + intros fd Hfd. destruct (Hpar _ _ Hfd eq_refl) as [E _]. discriminate.
    + intros t args fd Hexec Hfd.
      destruct (Hchild t args Hexec) as (Hok & _ & _).
      destruct (Hok _ _ Hfd eq_refl) as [(_ & E & _)|(-> & E & _)];
        [discriminate | inversion E; auto].
  - intros Hne Hall. unfold r, n in *. clear r n.
    destruct (Hall (length cmds - 1)%nat) as [_ [child Hchild]].
    { destruct cmds; [congruence | cbn [length]; lia]. }
    destruct (spawn_loop_launches s cmds 0 t0 None (-1) child Hne)
      as (He & Hl & lg & Hlast & _); [exact Hall | exact Hchild |].
    cbv zeta in He, Hl, Hlast.
    split; [exact Hl|].
    rewrite (spawn_loop_final_fds _ _ _ _ _ _ He), Hlast.
    assert (Hidx : sp_log (spawn_loop s cmds 0 t0 None (-1))
                     !! (length cmds - 1)%nat = Some lg).
    { rewrite last_lookup, Hl in Hlast.
      now replace (length cmds - 1)%nat with (Nat.pred (length cmds)) by lia. }
    destruct (lookup_lt_is_Some_2 cmds (length cmds - 1)%nat) as [c Hc].
    { destruct cmds; [congruence | cbn [length]; lia]. }
    destruct (Hstage _ _ _ Hidx Hc) as (Hpar & Hstd3 & _).
    split; [|exact Hstd3].
    intros fd o Hfd. destruct (is_pipe_end o) eqn:Hp; [|reflexivity].
    destruct (Hpar _ _ Hfd Hp) as [_ Hlt]. lia.
Qed.

Lemma execute_pipeline_log sh cmds bg line :
  dispatch (jobs sh) cmds = ToExecutor ->
  ex_log (execute_pipeline s sh cmds bg line)
    = sp_log (spawn_loop s cmds 0 (fds sh) None (-1)) /\
  ex_fds (execute_pipeline s sh cmds bg line)
    = sp_fds (spawn_loop s cmds 0 (fds sh) None (-1)).
Proof.
  intros Hd. unfold execute_pipeline. rewrite Hd.
  destruct (sp_end _); [destruct bg; [destruct (add_job _ _ _)|]| |];
    split; reflexivity.
Qed.

Lemma execute_pipeline_builtin_log sh cmds bg line e :
  dispatch (jobs sh) cmds = ToBuiltin e ->
  ex_log (execute_pipeline s sh cmds bg line) = [].
Proof. intros Hd. unfold execute_pipeline. now rewrite Hd. Qed.

(** C2.  In a pipeline of [n] stages started from a table with the
    standard streams open, after every stage that is set up the parent
    holds no pipe end except the read end that feeds the next stage, and
    every child that reaches [execvp] holds no pipe end except the read
    end of the previous pipe as its standard input and the write end of
    its own pipe as its standard output (and holds those unless a
    redirection took their place).  Hence the write end of pipe [k] is
    open in the child of stage [k] alone, so its reader sees the end of
    the stream once that one writer is gone.  When all calls succeed
    every stage is set up and the parent ends with no pipe end at all
    and its standard streams open, ready for the next pipeline. *)
Theorem C2_descriptor_discipline (sh : shell) (cmds : list cmd_t)
    (background : bool) (line : string) :
  std_open (fds sh) -> no_pipe_ends (fds sh) ->
  let n := length cmds in
  let r := execute_pipeline s sh cmds background line in
  (forall i lg c, ex_log r !! i = Some lg -> cmds !! i = Some c ->
     stage_ok n i c lg) /\
  (forall i k lg, ex_log r !! i = Some lg ->
     (forall fd, fd_get (sl_parent lg) fd <> Some (PipeWrite k)) /\
     (forall t args fd, sl_child lg = ChildExec t args ->
        fd_get t fd = Some (PipeWrite k) -> k = i /\ fd = STDOUT_FILENO)) /\
  (cmds <> [] -> dispatch (jobs sh) cmds = ToExecutor -> launches s n ->
     length (ex_log r) = n /\ no_pipe_ends (ex_fds r) /\ std_open (ex_fds r)).
Proof.
  intros Hstd Hno n r.
  destruct (spawn_loop_descriptor_discipline cmds (fds sh) Hstd Hno)
    as (Hstage & Heof & Hall).
  destruct (dispatch (jobs sh) cmds) as [e|] eqn:Hd.
  - assert (Hlog : ex_log r = [])
      by exact (execute_pipeline_builtin_log sh cmds background line e Hd).
    rewrite Hlog. split; [|split]; try discriminate.
    all: intros i ? lg Hlg; discriminate.
  - destruct (execute_pipeline_log sh cmds background line Hd) as [Hlog Hfds].
    fold r in Hlog, Hfds. rewrite Hlog, Hfds.
    split; [exact Hstage|]. split; [exact Heof|].
    intros Hne _ Hl. now apply Hall.
Qed.

End Discipline.

Lemma C2_descriptor_discipline_witness :
  length (ex_log (execute_pipeline sys_ok shell0 three_stages false "a | b | c > out"))
    = 3%nat /\
  no_pipe_ends
    (ex_fds (execute_pipeline sys_ok shell0 three_stages false "a | b | c > out")) /\
  std_open
    (ex_fds (execute_pipeline sys_ok shell0 three_stages false "a | b | c > out")).
Proof.
  apply (C2_descriptor_discipline sys_ok shell0 three_stages false
           "a | b | c > out").
  - repeat split; eexists; reflexivity.
  - intros [|[|[|fd]]] o H; inversion H; reflexivity.
  - discriminate.
  - reflexivity.
  - intros k Hk. split; [reflexivity | eexists; reflexivity].
Defined.

(** The three-stage pipeline, stage by stage: pids, what each child
    hands to [execvp], and the parent's table after each pass. *)
Example three_stages_run :
  sp_log (spawn_loop sys_ok three_stages 0 tty_fds None (-1)) =
    [ {| sl_pid := 100;
         sl_child := ChildExec [Some (Inherited 0); Some (PipeWrite 0);
                                Some (Inherited 0); None; None] ["a"];
         sl_parent := [Some (Inherited 0); Some (Inherited 0);
                       Some (Inherited 0); Some (PipeRead 0); None] |};
      {| sl_pid := 101;
         sl_child := ChildExec [Some (PipeRead 0); Some (PipeWrite 1);
                                Some (Inherited 0); None; None; None] ["b"];
         sl_parent := [Some (Inherited 0); Some (Inherited 0);
                       Some (Inherited 0); None; Some (PipeRead 1); None] |};
      {| sl_pid := 102;
         sl_child := ChildExec [Some (PipeRead 1);
                                Some (OpenedFile "out" WriteTrunc);
                                Some (Inherited 0); None; None; None] ["c"];
         sl_parent := [Some (Inherited 0); Some (Inherited 0);
                       Some (Inherited 0); None; None; None] |} ].
Proof. reflexivity. Qed.

(** ** Sample runs *)

Example spec_words_quoted :
  spec_words "echo 'a | b'  c" = ["echo"; "a | b"; "c"].
Proof. reflexivity. Qed.

(** A single quote inside a double-quoted span is dropped as well. *)
Example tokenize_nested_quote :
  tokenize (String DQUOTE (String.append "it's" (String DQUOTE EmptyString)))
    MAX_TOKENS = ["its"].
Proof. reflexivity. Qed.

Example tokenize_unterminated_quote :
  tokenize "echo 'a b" MAX_TOKENS = ["echo"; "a b"].
Proof. reflexivity. Qed.

Example parse_pipeline :
  parse_commands ["ls"; "-l"; "|"; "wc"; ">"; "n"; "&"]
    = ParseOk [mk_cmd ["ls"; "-l"] None None false;
               mk_cmd ["wc"] None (Some "n") false] true.
Proof. reflexivity. Qed.

Example parse_trailing_pipe :
  parse_commands ["ls"; "|"] = ParseOk [mk_cmd ["ls"] None None false; empty_cmd] false.
Proof. reflexivity. Qed.

Example run_line_background :
  match run_line sys_ok shell0 (String.append "  sleep 1 &" (String LF EmptyString)) with
  | LineExecuted cmds bg r =>
      cmds = [mk_cmd ["sleep"; "1"] None None false] /\ bg = true /\
      ex_out r = [PrintJobStarted 1 100] /\
      ex_jobs r !! 0%nat = Some (mk_job 100 "sleep 1 &" true)
  | _ => False
  end.
Proof. vm_compute. repeat split. Qed.

Example reaper_retires_job :
  let sh := {| jobs := <[0%nat := mk_job 100 "sleep 1 &" true]> initial_jobs;
               fds := tty_fds; errno := 4 |} in
  let '(sh', out) :=
    sigchld_handler [mk_reaped 100 (WExited 0) None (Some 25)] (Some 10) sh in
  jobs sh' !! 0%nat = Some (mk_job 100 "sleep 1 &" false) /\
  errno sh' = 4 /\
  out = [PrintJobFinished 1 100 0 "sleep 1 &"; FlushStdout].
Proof. vm_compute. repeat split. Qed.

(** When [fork] fails the loop returns at once (line 228): the read end
    kept for the stage and both ends of the pipe just made stay open in
    the interpreter. *)
Example fork_failure_leaves_descriptors :
  ex_end (execute_pipeline (sys_fork_fails 1) shell0 three_stages false "a | b | c > out")
    = EndFailed /\
  ex_fds (execute_pipeline (sys_fork_fails 1) shell0 three_stages false "a | b | c > out")
    = [Some (Inherited 0); Some (Inherited 0); Some (Inherited 0);
       Some (PipeRead 0); Some (PipeRead 1); Some (PipeWrite 1)].
Proof. split; reflexivity. Qed.

(** * Further properties *)

(** ** Tokenizer: bounds, truncation, token texts *)

Section TokenizerMore.

(** The tokens and the terminating NULL fit an array of [max_tokens]
    entries. *)
Theorem tokenize_fits_array (line : string) (max_tokens : Z) :
  0 < max_tokens ->
  Z.of_nat (length (tokenize line max_tokens)) < max_tokens.
Proof.
  intros H. unfold tokenize.
  pose proof (tokenize_loop_length (Z.to_nat (max_tokens - 1)) (c_str line)).
  lia.
Qed.

Lemma tokenize_fits_array_witness :
  Z.of_nat (length (tokenize "a b c d" 3)) < 3.
Proof. apply (tokenize_fits_array "a b c d" 3). lia. Defined.

(** A smaller token limit cuts the token sequence and changes nothing
    else: the result is a prefix of the result for a larger limit.  The
    limits are [int]s above [INT_MIN], where [max_tokens - 1] does not
    overflow. *)
Theorem tokenize_truncates_to_prefix (line : string) (m m' : Z) :
  INT_MIN < m -> m <= m' -> m' <= INT_MAX ->
  tokenize line m = take (Z.to_nat (m - 1)) (tokenize line m').
Proof.
  intros _ H _. unfold tokenize.
  replace (Z.to_nat (m' - 1))
    with (Z.to_nat (m - 1) + (Z.to_nat (m' - 1) - Z.to_nat (m - 1)))%nat by lia.
  apply tokenize_loop_take.
Qed.

Lemma tokenize_truncates_to_prefix_witness :
  tokenize "a | b > c" 3 = take 2 (tokenize "a | b > c" MAX_TOKENS).
Proof.
  apply (tokenize_truncates_to_prefix "a | b > c" 3 MAX_TOKENS);
    vm_compute; [reflexivity | discriminate | discriminate].
Defined.

Lemma strip_quotes_no_quote w :
  string_forall (fun c => negb (is_quote c)) (strip_quotes w) = true.
Proof.
  induction w as [|c w IH]; [reflexivity|]. cbn [strip_quotes].
  destruct (is_quote c) eqn:Hq; [exact IH|].
  cbn [string_forall]. now rewrite Hq, IH.
Qed.

Lemma tokenize_loop_no_quote room : forall p,
  Forall (fun t => string_forall (fun c => negb (is_quote c)) t = true)
    (tokenize_loop room p).
Proof.
  induction room as [|room IH]; intros p; cbn [tokenize_loop]; [constructor|].
  destruct p as [|c0 p0]; [constructor|].
  destruct (skip_blanks (String c0 p0)) as [|c p1]; [constructor|].
  destruct (is_opchar c) eqn:Ho.
  - assert (Hc : string_forall (fun c => negb (is_quote c)) (String c EmptyString) = true)
      by (cbn [string_forall]; now rewrite (opchar_not_quote _ Ho)).
    destruct p1 as [|c1 p2]; [constructor; [exact Hc | apply IH]|].
    destruct (Ascii.eqb c ">" && Ascii.eqb c1 ">");
      constructor; try apply IH; [reflexivity | exact Hc].
  - destruct (scan_word None (String c p1)) as [w r].
    constructor; [apply strip_quotes_no_quote | apply IH].
Qed.

(** No token ever contains a quote character, whatever the line. *)
Theorem tokens_hold_no_quote (line : string) (max_tokens : Z) :
  Forall (fun t => string_forall (fun c => negb (is_quote c)) t = true)
    (tokenize line max_tokens).
Proof. apply tokenize_loop_no_quote. Qed.

Lemma skip_blanks_empty p :
  skip_blanks p = EmptyString <-> string_forall is_blank p = true.
Proof.
  induction p as [|c p IH]; [tauto|]. cbn [skip_blanks string_forall].
  destruct (is_blank c); cbn [andb]; [exact IH|]. split; discriminate.
Qed.

(** The tokenizer returns no token exactly for the lines that hold
    nothing but blanks (given room for one token). *)
Theorem tokenize_empty_iff_blank (line : string) (max_tokens : Z) :
  1 < max_tokens ->
  (tokenize line max_tokens = [] <->
   string_forall is_blank (c_str line) = true).
Proof.
  intros H. unfold tokenize.
  destruct (Z.to_nat (max_tokens - 1)) as [|room] eqn:E; [lia|].
  rewrite <- skip_blanks_empty. cbn [tokenize_loop].
  destruct (c_str line) as [|c0 p0]; [tauto|].
  destruct (skip_blanks (String c0 p0)) as [|c p1]; [tauto|].
  split; [|discriminate].
  destruct (is_opchar c).
  - destruct p1 as [|c1 p2]; [discriminate|].
    destruct (Ascii.eqb c ">" && Ascii.eqb c1 ">"); discriminate.
  - destruct (scan_word None (String c p1)); discriminate.
Qed.

Lemma tokenize_empty_iff_blank_witness :
  tokenize "   " MAX_TOKENS = [] <-> string_forall is_blank (c_str "   ") = true.
Proof. apply (tokenize_empty_iff_blank "   " MAX_TOKENS). reflexivity. Defined.

Lemma c_str_app_nul a b : c_str (String.append a (String NUL b)) = c_str a.
Proof.
  induction a as [|c a IH]; [reflexivity|]. cbn [String.append c_str].
  destruct (Ascii.eqb c NUL); [reflexivity | now rewrite IH].
Qed.

(** Whatever follows a NUL byte in the buffer has no effect on the
    tokens. *)
Theorem tokenize_stops_at_nul (a b : string) (max_tokens : Z) :
  tokenize (String.append a (String NUL b)) max_tokens = tokenize a max_tokens.
Proof. unfold tokenize. now rewrite c_str_app_nul. Qed.

End TokenizerMore.

Section QuoteFreeLines.

Let no_quote := fun c : ascii => negb (is_quote c).

Lemma skip_blanks_no_quote p :
  string_forall no_quote p = true ->
  string_forall no_quote (skip_blanks p) = true.
Proof.
  induction p as [|c p IH]; [reflexivity|]. cbn [skip_blanks string_forall].
  intros H. apply andb_true_iff in H as [Hc Hp].
  destruct (is_blank c); [now apply IH|]. cbn [string_forall].
  now rewrite Hc, Hp.
Qed.

Lemma scan_word_no_quote p :
  string_forall no_quote p = true ->
  string_forall is_plain (scan_word None p).1 = true /\
  string_forall no_quote (scan_word None p).2 = true.
Proof.
  induction p as [|c p IH]; [split; reflexivity|].
  cbn [string_forall scan_word]. intros H.
  apply andb_true_iff in H as [Hc Hp]. pose proof Hc as Hq.
  unfold no_quote in Hq. apply negb_true_iff in Hq. rewrite Hq.
  destruct (is_blank c) eqn:Hb;
    [split; [reflexivity | cbn [snd string_forall]; now rewrite Hc, Hp]|].
  destruct (is_opchar c) eqn:Ho;
    [split; [reflexivity | cbn [snd string_forall]; now rewrite Hc, Hp]|].
  destruct (IH Hp) as [Hw Hr]. destruct (scan_word None p) as [w r].
  cbn [fst snd] in *. split; [|exact Hr].
  cbn [string_forall]. unfold is_plain at 1. now rewrite Hb, Hq, Ho, Hw.
Qed.

Lemma tokenize_loop_no_quote_line room : forall p,
  string_forall no_quote p = true ->
  Forall (fun t => is_operator_token t = true \/
                   (t <> EmptyString /\ string_forall is_plain t = true))
    (tokenize_loop room p).
Proof.
  induction room as [|room IH]; intros p Hp; cbn [tokenize_loop]; [constructor|].
  destruct p as [|c0 p0]; [constructor|].
  apply skip_blanks_no_quote in Hp.
  destruct (skip_blanks (String c0 p0)) as [|c p1] eqn:Hskip; [constructor|].
  pose proof (skip_blanks_head _ _ _ Hskip) as Hb.
  pose proof Hp as Hp'. cbn [string_forall] in Hp'.
  apply andb_true_iff in Hp' as [Hc Hp1].
  destruct (is_opchar c) eqn:Ho.
  - destruct p1 as [|c1 p2].
    + constructor; [left; now apply opchar_token | apply IH; reflexivity].
    + cbn [string_forall] in Hp1. apply andb_true_iff in Hp1 as [Hc1 Hp2].
      destruct (Ascii.eqb c ">" && Ascii.eqb c1 ">"); constructor.
      * now left.
      * now apply IH.
      * left; now apply opchar_token.
      * apply IH. cbn [string_forall]. now rewrite Hc1, Hp2.
  - destruct (scan_word_no_quote _ Hp) as [Hw Hr].
    pose proof (scan_word_first c p1 Hb Ho) as Hfirst.
    destruct (scan_word None (String c p1)) as [w r]. cbn [fst snd] in *.
    constructor; [|now apply IH].
    right. rewrite (strip_quotes_plain _ Hw). split; [|exact Hw].
    destruct (scan_word _ p1) in Hfirst. inversion Hfirst. discriminate.
Qed.

(** On a line without quote characters every token is an operator
    token or a non-empty word free of blanks, quotes and operator
    characters. *)
Theorem tokens_of_quote_free_line (line : string) (max_tokens : Z) :
  string_forall (fun c => negb (is_quote c)) (c_str line) = true ->
  Forall (fun t => is_operator_token t = true \/
                   (t <> EmptyString /\ string_forall is_plain t = true))
    (tokenize line max_tokens).
Proof. apply tokenize_loop_no_quote_line. Qed.

End QuoteFreeLines.

Lemma tokens_of_quote_free_line_witness :
  Forall (fun t => is_operator_token t = true \/
                   (t <> EmptyString /\ string_forall is_plain t = true))
    (tokenize "ls -l|wc  >>out" MAX_TOKENS).
Proof. apply (tokens_of_quote_free_line "ls -l|wc  >>out" MAX_TOKENS). reflexivity. Defined.

(** ** Parser: shape of the result *)

Section ParserMore.

Lemma parse_loop_ok_shape n : forall tokens done cur bg cmds bg',
  (length tokens <= n)%nat ->
  parse_loop tokens done cur bg = ParseOk cmds bg' ->
  length cmds = (length done + S (stage_breaks tokens))%nat /\
  bg' = bg || background_marked tokens /\
  concat (map argv cmds)
    = concat (map argv done) ++ argv cur ++ word_tokens tokens.
Proof.
  induction n as [|n IH]; intros tokens done cur bg cmds bg' Hn Hok.
  - destruct tokens; [|cbn [length] in Hn; lia].
    cbn [parse_loop] in Hok. destruct (argv_has_room cur); [|discriminate].
    inversion Hok; subst. cbn [stage_breaks background_marked word_tokens].
    rewrite length_app, map_app, concat_app, orb_false_r. cbn [length map concat].
    now rewrite !app_nil_r.
  - destruct tokens as [|t rest].
    { apply (IH [] done cur bg cmds bg'); [cbn; lia | exact Hok]. }
    cbn [length] in Hn. cbn [stage_breaks background_marked word_tokens].
    destruct (String.eqb t "&") eqn:Eamp.
    + apply String.eqb_eq in Eamp; subst t.
      cbn [parse_loop String.eqb Ascii.eqb Bool.eqb] in Hok.
      assert (Hle : (length rest <= n)%nat) by lia.
      destruct (IH rest _ _ _ _ _ Hle Hok) as (Hl & Hb & Hw).
      cbn [is_redirect_token String.eqb Ascii.eqb Bool.eqb orb].
      rewrite orb_true_r. now rewrite Hl, Hb, Hw.
    + destruct (is_redirect_token t) eqn:Hr.
      * destruct (redirect_not_amp_pipe _ Hr) as [_ Hp]. rewrite Hp.
        rewrite (parse_loop_redirect _ _ _ _ _ Hr) in Hok.
        destruct rest as [|f rest']; [discriminate|]. cbn [length] in Hn.
        assert (Hle : (length rest' <= n)%nat) by lia.
        destruct (IH rest' _ _ _ _ _ Hle Hok) as (Hl & Hb & Hw).
        rewrite Hl, Hb, Hw. repeat split.
        now destruct (String.eqb t "<").
      * destruct (String.eqb t "|") eqn:Hp.
        -- apply String.eqb_eq in Hp; subst t.
           cbn [parse_loop String.eqb Ascii.eqb Bool.eqb] in Hok.
           destruct (argv_has_room cur); [|discriminate].
           destruct (MAX_TOKENS <=? Z.of_nat (length done) + 1); [discriminate|].
           assert (Hle : (length rest <= n)%nat) by lia.
           destruct (IH rest _ _ _ _ _ Hle Hok) as (Hl & Hb & Hw).
           rewrite Hl, Hb, Hw, length_app, map_app, concat_app.
           cbn [length map concat empty_cmd argv app].
           rewrite app_nil_r, <- app_assoc. repeat split. lia.
        -- rewrite (parse_loop_word _ _ _ _ _ Eamp Hp Hr) in Hok.
           destruct (argv_has_room cur); [|discriminate].
           assert (Hle : (length rest <= n)%nat) by lia.
           destruct (IH rest _ _ _ _ _ Hle Hok) as (Hl & Hb & Hw).
           rewrite Hl, Hb, Hw. unfold push_arg; cbn [argv].
           rewrite <- !app_assoc. repeat split.
Qed.

(** A successful parse yields one stage more than there are [|] in
    operator position (so at least one), and the background flag is set
    exactly when some [&] stands in operator position, wherever. *)
Theorem parse_stage_count_and_background (tokens : list string)
    (cmds : list cmd_t) (bg : bool) :
  parse_commands tokens = ParseOk cmds bg ->
  Z.of_nat (length cmds) = pipeline_stages tokens /\
  cmds <> [] /\
  bg = background_marked tokens.
Proof.
  intros Hok.
  destruct (parse_loop_ok_shape (length tokens) tokens [] empty_cmd false cmds bg
              (Nat.le_refl _) Hok) as (Hl & Hb & _).
  unfold pipeline_stages. cbn [length Nat.add] in Hl.
  split; [now rewrite Hl|]. split; [|exact Hb].
  intros ->; discriminate.
Qed.

Lemma parse_stage_count_and_background_witness :
  Z.of_nat (length [mk_cmd ["ls"] None None false; mk_cmd ["wc"] None None false])
    = pipeline_stages ["ls"; "&"; "|"; "wc"] /\
  [mk_cmd ["ls"] None None false; mk_cmd ["wc"] None None false] <> [] /\
  true = background_marked ["ls"; "&"; "|"; "wc"].
Proof.
  apply (parse_stage_count_and_background ["ls"; "&"; "|"; "wc"]). reflexivity.
Defined.

(** The arguments of the parsed stages, read stage after stage, are the
    word tokens of the sequence in their order: none is dropped,
    repeated or moved. *)
Theorem parse_keeps_words_in_order (tokens : list string)
    (cmds : list cmd_t) (bg : bool) :
  parse_commands tokens = ParseOk cmds bg ->
  concat (map argv cmds) = word_tokens tokens.
Proof.
  intros Hok.
  destruct (parse_loop_ok_shape (length tokens) tokens [] empty_cmd false cmds bg
              (Nat.le_refl _) Hok) as (_ & _ & Hw).
  exact Hw.
Qed.

Lemma parse_keeps_words_in_order_witness :
  concat (map argv [mk_cmd ["sort"; "-r"] (Some "in") None false;
                    mk_cmd ["uniq"] None None false])
    = word_tokens ["sort"; "<"; "in"; "-r"; "|"; "uniq"].
Proof.
  apply (parse_keeps_words_in_order ["sort"; "<"; "in"; "-r"; "|"; "uniq"] _ false).
  reflexivity.
Defined.

Lemma parse_loop_dangling n : forall tokens done cur bg,
  (length tokens <= n)%nat ->
  Z.of_nat (length (argv cur) + length tokens) < MAX_TOKENS ->
  Z.of_nat (length done + length tokens) < MAX_TOKENS ->
  (dangling_redirect tokens = false /\
   exists cmds bg', parse_loop tokens done cur bg = ParseOk cmds bg') \/
  (dangling_redirect tokens = true /\
   (parse_loop tokens done cur bg = ParseError InNeedsFile \/
    parse_loop tokens done cur bg = ParseError OutNeedsFile)).
Proof.
  induction n as [|n IH]; intros tokens done cur bg Hn Ha Hd.
  - destruct tokens; [|cbn [length] in Hn; lia]. left. split; [reflexivity|].
    rewrite parse_loop_end by (cbn [length] in Ha; lia). now eexists _, _.
  - destruct tokens as [|t rest].
    { apply IH; [cbn; lia | exact Ha | exact Hd]. }
    cbn [length] in Hn, Ha, Hd. cbn [dangling_redirect].
    destruct (String.eqb t "&") eqn:Eamp.
    + apply String.eqb_eq in Eamp; subst t.
      cbn [is_redirect_token parse_loop String.eqb Ascii.eqb Bool.eqb orb].
      apply IH; lia.
    + destruct (is_redirect_token t) eqn:Hr.
      * rewrite (parse_loop_redirect _ _ _ _ _ Hr).
        destruct rest as [|f rest'].
        -- right. split; [reflexivity|]. destruct (String.eqb t "<"); auto.
        -- cbn [length] in Hn, Ha, Hd. apply IH; [lia | | lia].
           destruct (String.eqb t "<"); cbn [set_infile set_outfile argv]; lia.
      * destruct (String.eqb t "|") eqn:Hp.
        -- apply String.eqb_eq in Hp; subst t.
           cbn [parse_loop String.eqb Ascii.eqb Bool.eqb].
           unfold argv_has_room.
           destruct (Z.ltb_spec (Z.of_nat (length (argv cur))) MAX_TOKENS); [|lia].
           destruct (Z.leb_spec MAX_TOKENS (Z.of_nat (length done) + 1)); [lia|].
           apply IH; [lia | cbn [argv empty_cmd length]; lia|].
           rewrite length_app; cbn [length]; lia.
        -- rewrite (parse_loop_word _ _ _ _ _ Eamp Hp Hr).
           unfold argv_has_room.
           destruct (Z.ltb_spec (Z.of_nat (length (argv cur))) MAX_TOKENS); [|lia].
           apply IH; [lia | | lia].
           unfold push_arg; cbn [argv]. rewrite length_app; cbn [length]. lia.
Qed.

(** For a token sequence as the read loop supplies it (fewer than
    [MAX_TOKENS] tokens) the parser fails in one case only: the sequence
    ends in a redirection operator with no token left for its file.
    Everything else parses, a leading or doubled [|] included. *)
Theorem parse_fails_only_on_dangling_redirect (tokens : list string) :
  Z.of_nat (length tokens) < MAX_TOKENS ->
  (dangling_redirect tokens = false ->
     exists cmds bg, parse_commands tokens = ParseOk cmds bg) /\
  (dangling_redirect tokens = true ->
     parse_commands tokens = ParseError InNeedsFile \/
     parse_commands tokens = ParseError OutNeedsFile).
Proof.
  intros Hlen.
  destruct (parse_loop_dangling (length tokens) tokens [] empty_cmd false)
    as [[Hd Hok]|[Hd Herr]];
    [lia | cbn [argv empty_cmd length]; lia | cbn [length]; lia | |];
    fold (parse_commands tokens) in *; rewrite Hd;
    split; intros E; try discriminate; assumption.
Qed.

Lemma parse_fails_only_on_dangling_redirect_witness :
  (exists cmds bg, parse_commands ["|"; "|"; "ls"] = ParseOk cmds bg) /\
  (parse_commands ["ls"; ">"; "out"; "<"] = ParseError InNeedsFile \/
   parse_commands ["ls"; ">"; "out"; "<"] = ParseError OutNeedsFile).
Proof.
  split.
  - apply (parse_fails_only_on_dangling_redirect ["|"; "|"; "ls"]); reflexivity.
  - apply (parse_fails_only_on_dangling_redirect ["ls"; ">"; "out"; "<"]); reflexivity.
Defined.

End ParserMore.

(** ** Job table: invariants and round trip *)

Section JobTableMore.

Lemma mark_job_done_from_length n : forall i tbl p status,
  length (mark_job_done_from n i tbl p status).1 = length tbl.
Proof.
  induction n as [|n IH]; intros i tbl p status; cbn [mark_job_done_from];
    [reflexivity|].
  destruct (tbl !! i) as [j|]; [|reflexivity].
  destruct (running j && (pid j =? p)); [|apply IH]. cbn [fst]. apply length_insert.
Qed.

(** What [mark_job_done] does, by cases on whether the pid is tracked. *)
Lemma mark_job_done_cases tbl p status :
  length tbl = MAX_JOBS ->
  (exists m j, first_match tbl p m /\ tbl !! m = Some j /\
     mark_job_done tbl p status
       = (<[m := retired j]> tbl, done_notice m p status (cmdline j))) \/
  (untracked tbl p /\ mark_job_done tbl p status = (tbl, [])).
Proof.
  intros Hlen.
  assert (Hdec : (exists m, first_match tbl p m) \/ untracked tbl p).
  { clear Hlen. induction tbl as [|j tbl IH].
    - right. intros k j Hk. now destruct k.
    - destruct (matches p j) eqn:Hj.
      + left. exists O. split; [now exists j|]. intros k j' Hk; lia.
      + destruct IH as [[m [(jm & Hm & Hjm) Hlow]]|Hun].
        * left. exists (S m). split; [now exists jm|].
          intros [|k] j' Hk Hk'; [now inversion Hk'; subst|].
          apply (Hlow k); [lia | exact Hk'].
        * right. intros [|k] j' Hk; [now inversion Hk; subst|].
          now apply (Hun k). }
  destruct (mark_job_done_from_spec p status MAX_JOBS 0 tbl) as [Hhit Hmiss];
    [lia | lia |].
  destruct Hdec as [[m Hm]|Hun].
  - left. destruct Hm as [(j & Hj & Hmj) Hlow]. exists m, j.
    split; [split; [now exists j | exact Hlow]|]. split; [exact Hj|].
    apply Hhit; [split; [now exists j | exact Hlow] | exact Hj].
  - right. split; [exact Hun|]. now apply Hmiss.
Qed.

Lemma matches_new_job p line : matches p (new_job p line) = true.
Proof. unfold matches, new_job; cbn. apply Z.eqb_refl. Qed.

(** Round trip: a job added for an untracked pid and then reported done
    leaves every slot's running flag as it was before; the slot used
    keeps the pid and the saved line, and the completion notice names
    the index that [add_job] printed. *)
Theorem add_then_done_restores_flags (tbl : list job_t) (p : Z)
    (line : string) (status : wstatus) (m : nat) :
  length tbl = MAX_JOBS ->
  lowest_inactive tbl m ->
  untracked tbl p ->
  (add_job tbl p line).2 = [PrintJobStarted (Z.of_nat m + 1) p] /\
  mark_job_done (add_job tbl p line).1 p status
    = (<[m := retired (new_job p line)]> tbl,
       done_notice m p status (strncpy_cmdline line)) /\
  map running (mark_job_done (add_job tbl p line).1 p status).1
    = map running tbl.
Proof.
  intros Hlen Hm Hun.
  destruct (add_job_from_spec p line MAX_JOBS 0 tbl) as [Hadd _]; [lia | lia |].
  fold (add_job tbl p line) in Hadd. rewrite (Hadd m Hm). cbn [fst snd].
  destruct Hm as [(j0 & Hj0 & Hr0) Hlow].
  assert (Hlt : (m < length tbl)%nat) by now apply lookup_lt_Some in Hj0.
  set (tbl1 := <[m := new_job p line]> tbl).
  assert (Hm1 : tbl1 !! m = Some (new_job p line))
    by (apply list_lookup_insert_eq; exact Hlt).
  assert (Hfirst : first_match tbl1 p m).
  { split; [exists (new_job p line); split; [exact Hm1 | apply matches_new_job]|].
    intros k j Hk Hkj. unfold tbl1 in Hkj.
    rewrite list_lookup_insert_ne in Hkj by lia. now apply (Hun k). }
  destruct (mark_job_done_from_spec p status MAX_JOBS 0 tbl1) as [Hhit _];
    [unfold tbl1; rewrite length_insert; lia | lia |].
  fold (mark_job_done tbl1 p status) in Hhit.
  rewrite (Hhit m _ Hfirst Hm1). unfold tbl1.
  rewrite list_insert_insert_eq. split; [reflexivity|]. split; [reflexivity|].
  cbn [fst]. rewrite list_fmap_insert. apply list_insert_id.
  rewrite list_lookup_fmap, Hj0. cbn. now rewrite Hr0.
Qed.

Lemma add_then_done_restores_flags_witness :
  map running (mark_job_done (add_job initial_jobs 7 "sleep 9 &").1 7 (WSignaled 15)).1
    = map running initial_jobs.
Proof.
  apply (add_then_done_restores_flags initial_jobs 7 "sleep 9 &" (WSignaled 15) 0).
  - reflexivity.
  - split; [exists (mk_job 0 EmptyString false); split; reflexivity|].
    intros k j Hk; lia.
  - intros k j Hk. apply lookup_replicate in Hk as [-> _]. reflexivity.
Defined.

End JobTableMore.

Section TrackedPids.

Lemma retired_not_matching p j : matches p (retired j) = false.
Proof. reflexivity. Qed.

(** [mark_job_done] never turns a slot on: an active slot of the result
    is the same active slot of the table before. *)
Lemma mark_job_done_active_before tbl p status k j :
  length tbl = MAX_JOBS ->
  (mark_job_done tbl p status).1 !! k = Some j -> running j = true ->
  tbl !! k = Some j.
Proof.
  intros Hlen Hk Hr.
  destruct (mark_job_done_cases tbl p status Hlen)
    as [(m & jm & _ & Hm & Heq)|[_ Heq]]; rewrite Heq in Hk; cbn [fst] in Hk;
    [|exact Hk].
  destruct (decide (m = k)) as [->|Hne].
  - rewrite list_lookup_insert_eq in Hk by now apply lookup_lt_Some in Hm.
    inversion Hk; subst j. discriminate.
  - now rewrite list_lookup_insert_ne in Hk.
Qed.

(** When no two active slots share a pid, a completion report for pid
    [p] leaves no active record for [p], and the pids stay distinct. *)
Theorem done_leaves_no_active_record (tbl : list job_t) (p : Z)
    (status : wstatus) :
  length tbl = MAX_JOBS ->
  pids_distinct tbl ->
  untracked (mark_job_done tbl p status).1 p /\
  pids_distinct (mark_job_done tbl p status).1.
Proof.
  intros Hlen Hd. split.
  - destruct (mark_job_done_cases tbl p status Hlen)
      as [(m & jm & [(jm' & Hm' & Hmatch) _] & Hm & ->)|[Hun ->]];
      cbn [fst]; [|exact Hun].
    rewrite Hm in Hm'; inversion Hm'; subst jm'.
    intros k j Hk. destruct (decide (m = k)) as [->|Hne].
    + rewrite list_lookup_insert_eq in Hk by now apply lookup_lt_Some in Hm.
      now inversion Hk.
    + rewrite list_lookup_insert_ne in Hk by exact Hne.
      destruct (matches p j) eqn:Hj; [|reflexivity]. exfalso. apply Hne.
      unfold matches in Hmatch, Hj.
      apply andb_true_iff in Hmatch as [Hr1 He1].
      apply andb_true_iff in Hj as [Hr2 He2].
      apply Z.eqb_eq in He1, He2.
      apply (Hd m k jm j Hm Hk Hr1 Hr2). congruence.
  - intros i k ji jk Hi Hk Hri Hrk Hpid.
    apply (Hd i k ji jk); try assumption.
    + exact (mark_job_done_active_before tbl p status i ji Hlen Hi Hri).
    + exact (mark_job_done_active_before tbl p status k jk Hlen Hk Hrk).
Qed.

Lemma done_leaves_no_active_record_witness :
  untracked (mark_job_done (add_job initial_jobs 7 "sleep 9 &").1 7 (WExited 0)).1 7.
Proof.
  apply (done_leaves_no_active_record (add_job initial_jobs 7 "sleep 9 &").1 7 (WExited 0)).
  - reflexivity.
  - intros [|i] [|k] ji jk Hi Hk Hri Hrk _; try reflexivity; exfalso.
    + apply lookup_replicate in Hk as [-> _]. discriminate.
    + apply lookup_replicate in Hi as [-> _]. discriminate.
    + apply lookup_replicate in Hi as [-> _]. discriminate.
Defined.

(** [add_job] keeps the pids of active slots distinct when the new pid
    is not tracked yet. *)
Theorem add_job_keeps_pids_distinct (tbl : list job_t) (p : Z) (line : string) :
  length tbl = MAX_JOBS ->
  pids_distinct tbl -> untracked tbl p ->
  pids_distinct (add_job tbl p line).1.
Proof.
  intros Hlen Hd Hun.
  assert (Hcases : (add_job tbl p line).1 = tbl \/
                   exists m, (m < length tbl)%nat /\
                             (add_job tbl p line).1 = <[m := new_job p line]> tbl).
  { unfold add_job. generalize MAX_JOBS, 0%nat. intros n. clear.
    induction n as [|n IH]; intros i; cbn [add_job_from]; [now left|].
    destruct (tbl !! i) as [j|] eqn:Hi; [|now left].
    destruct (running j); [apply IH|]. right. exists i.
    split; [now apply lookup_lt_Some in Hi | reflexivity]. }
  destruct Hcases as [->|(m & Hm & ->)]; [exact Hd|].
  assert (Hother : forall k j, k <> m ->
            <[m := new_job p line]> tbl !! k = Some j -> running j = true ->
            tbl !! k = Some j /\ pid j <> p).
  { intros k j Hne Hk Hr. rewrite list_lookup_insert_ne in Hk by auto.
    split; [exact Hk|]. intros E. specialize (Hun k j Hk).
    unfold matches in Hun. rewrite Hr in Hun. cbn [andb] in Hun.
    apply Z.eqb_neq in Hun. contradiction. }
  intros i k ji jk Hi Hk Hri Hrk Hpid.
  destruct (decide (i = m)) as [->|Hi'], (decide (k = m)) as [->|Hk']; [reflexivity| | |].
  - rewrite list_lookup_insert_eq in Hi by exact Hm. inversion Hi; subst ji.
    destruct (Hother k jk Hk' Hk Hrk) as [_ Hne]. cbn in Hpid. congruence.
  - rewrite list_lookup_insert_eq in Hk by exact Hm. inversion Hk; subst jk.
    destruct (Hother i ji Hi' Hi Hri) as [_ Hne]. cbn in Hpid. congruence.
  - destruct (Hother i ji Hi' Hi Hri) as [Hi0 _].
    destruct (Hother k jk Hk' Hk Hrk) as [Hk0 _].
    now apply (Hd i k ji jk).
Qed.

Lemma two_jobs_active i j :
  two_jobs !! i = Some j -> running j = true ->
  (i = 0%nat /\ pid j = 5) \/ (i = 1%nat /\ pid j = 9).
Proof.
  intros Hi Hr. unfold two_jobs in Hi.
  destruct i as [|[|i]]; cbn [lookup list_lookup] in Hi.
  - inversion Hi; subst j. now left.
  - inversion Hi; subst j. now right.
  - apply lookup_replicate in Hi as [-> _]. discriminate.
Qed.

Lemma two_jobs_distinct : pids_distinct two_jobs.
Proof.
  intros i k ji jk Hi Hk Hri Hrk Hpid.
  destruct (two_jobs_active i ji Hi Hri) as [[-> Ei]|[-> Ei]],
           (two_jobs_active k jk Hk Hrk) as [[-> Ek]|[-> Ek]];
    try reflexivity; rewrite Ei, Ek in Hpid; discriminate.
Qed.

Lemma two_jobs_untracked p : p <> 5 -> p <> 9 -> untracked two_jobs p.
Proof.
  intros H5 H9 k j Hk. unfold matches.
  destruct (running j) eqn:Hr; [|reflexivity]. cbn [andb].
  apply Z.eqb_neq.
  destruct (two_jobs_active k j Hk Hr) as [[_ E]|[_ E]]; rewrite E; auto.
Qed.

Lemma add_job_keeps_pids_distinct_witness :
  pids_distinct (add_job two_jobs 7 "sleep 7 &").1.
Proof.
  apply (add_job_keeps_pids_distinct two_jobs 7 "sleep 7 &").
  - reflexivity.
  - exact two_jobs_distinct.
  - apply two_jobs_untracked; discriminate.
Defined.

End TrackedPids.

(** ** Child reaper: what it does to the table *)

Section ReaperMore.

Lemma mark_job_done_keeps_untracked tbl p status q :
  length tbl = MAX_JOBS ->
  untracked tbl q -> untracked (mark_job_done tbl p status).1 q.
Proof.
  intros Hlen Hq k j Hk.
  destruct (matches q j) eqn:Hm; [|reflexivity].
  assert (Hr : running j = true)
    by (unfold matches in Hm; now apply andb_true_iff in Hm as [? _]).
  rewrite <- Hm. apply (Hq k).
  now apply (mark_job_done_active_before tbl p status).
Qed.

(** A slot after [mark_job_done] holds the pid and line it held before,
    and is active only if it was. *)
Lemma mark_job_done_slotwise tbl p status k j' :
  length tbl = MAX_JOBS ->
  (mark_job_done tbl p status).1 !! k = Some j' ->
  exists j, tbl !! k = Some j /\ pid j' = pid j /\ cmdline j' = cmdline j /\
            (running j' = true -> running j = true).
Proof.
  intros Hlen Hk.
  destruct (mark_job_done_cases tbl p status Hlen)
    as [(m & jm & _ & Hm & Heq)|[_ Heq]]; rewrite Heq in Hk; cbn [fst] in Hk.
  - destruct (decide (m = k)) as [->|Hne].
    + rewrite list_lookup_insert_eq in Hk by now apply lookup_lt_Some in Hm.
      inversion Hk; subst j'. exists jm. cbn. repeat split; auto; discriminate.
    + rewrite list_lookup_insert_ne in Hk by exact Hne. exists j'. auto.
  - exists j'. auto.
Qed.

Lemma mark_job_done_size tbl p status :
  length (mark_job_done tbl p status).1 = length tbl.
Proof. apply mark_job_done_from_length. Qed.

Lemma reap_loop_table reaped : forall fe tbl e,
  length tbl = MAX_JOBS ->
  let tbl' := (reap_loop reaped fe tbl e).1.1 in
  (forall k j', tbl' !! k = Some j' ->
     exists j, tbl !! k = Some j /\ pid j' = pid j /\ cmdline j' = cmdline j /\
               (running j' = true -> running j = true)) /\
  (forall q, untracked tbl q -> untracked tbl' q) /\
  (pids_distinct tbl ->
     pids_distinct tbl' /\
     forall r, In r reaped -> untracked tbl' (Z.pos (rc_pid r))).
Proof.
  induction reaped as [|r rest IH]; intros fe tbl e Hlen.
  - cbn. split; [intros k j' Hk; exists j'; auto|]. split; [auto|].
    intros Hd; split; [exact Hd | intros r []].
  - cbn [reap_loop].
    pose proof (mark_job_done_size tbl (Z.pos (rc_pid r)) (rc_status r)) as Hsz.
    pose proof (mark_job_done_slotwise tbl (Z.pos (rc_pid r)) (rc_status r)) as Hslot.
    pose proof (mark_job_done_keeps_untracked tbl (Z.pos (rc_pid r)) (rc_status r)) as Hkeep.
    pose proof (done_leaves_no_active_record tbl (Z.pos (rc_pid r)) (rc_status r) Hlen) as Hclear.
    destruct (mark_job_done tbl (Z.pos (rc_pid r)) (rc_status r)) as [tbl1 out1].
    cbn [fst] in *.
    specialize (IH fe tbl1 (store_errno (rc_print_errno r)
                              (store_errno (rc_wait_errno r) e))
                   ltac:(lia)).
    destruct (reap_loop rest fe tbl1 _) as [[tbl2 e3] out2].
    cbn [fst] in *. destruct IH as (IHslot & IHkeep & IHd).
    split; [|split].
    + intros k j2 Hk. destruct (IHslot k j2 Hk) as (j1 & Hk1 & Hp1 & Hc1 & Hr1).
      destruct (Hslot k j1 Hlen Hk1) as (j & Hk0 & Hp0 & Hc0 & Hr0).
      exists j. repeat split; [exact Hk0 | congruence | congruence | auto].
    + intros q Hq. apply IHkeep. now apply Hkeep.
    + intros Hd. destruct (Hclear Hd) as [Hun1 Hd1].
      destruct (IHd Hd1) as [Hd2 Hrest]. split; [exact Hd2|].
      intros r' [<-|Hin]; [now apply IHkeep | now apply Hrest].
Qed.

(** The reaper changes no pid and no saved command line, and it turns
    no slot on: whatever children it reaps, a slot that is active when
    it returns was active when it was entered. *)
Theorem reaper_only_retires (reaped : list reaped_child) (fe : option Z)
    (sh : shell) (k : nat) (j' : job_t) :
  length (jobs sh) = MAX_JOBS ->
  jobs (sigchld_handler reaped fe sh).1 !! k = Some j' ->
  exists j, jobs sh !! k = Some j /\ pid j' = pid j /\ cmdline j' = cmdline j /\
            (running j' = true -> running j = true).
Proof.
  intros Hlen. unfold sigchld_handler.
  destruct (reap_loop_table reaped fe (jobs sh) (errno sh) Hlen) as (Hslot & _).
  destruct (reap_loop reaped fe (jobs sh) (errno sh)) as [[tbl e] out].
  cbn [fst jobs] in *. apply Hslot.
Qed.

(** The child with pid 9 is reaped: slot 1 keeps its pid and line. *)
Lemma reaper_only_retires_witness :
  exists j, jobs shell2 !! 1%nat = Some j /\
    pid (retired (new_job 9 "sleep 9 &")) = pid j /\
    cmdline (retired (new_job 9 "sleep 9 &")) = cmdline j /\
    (running (retired (new_job 9 "sleep 9 &")) = true -> running j = true).
Proof.
  apply (reaper_only_retires [mk_reaped 9 (WExited 0) None None] None shell2 1);
    reflexivity.
Defined.

(** When no two active slots share a pid, the reaper leaves no active
    record for any child it reaped, and the pids stay distinct. *)
Theorem reaper_clears_reaped_pids (reaped : list reaped_child)
    (fe : option Z) (sh : shell) :
  length (jobs sh) = MAX_JOBS ->
  pids_distinct (jobs sh) ->
  pids_distinct (jobs (sigchld_handler reaped fe sh).1) /\
  forall r, In r reaped ->
    untracked (jobs (sigchld_handler reaped fe sh).1) (Z.pos (rc_pid r)).
Proof.
  intros Hlen Hd. unfold sigchld_handler.
  destruct (reap_loop_table reaped fe (jobs sh) (errno sh) Hlen) as (_ & _ & H).
  destruct (reap_loop reaped fe (jobs sh) (errno sh)) as [[tbl e] out].
  cbn [fst jobs] in *. now apply H.
Qed.

(** The child with pid 9, tracked in slot 1, is reaped. *)
Lemma reaper_clears_reaped_pids_witness :
  pids_distinct (jobs (sigchld_handler [mk_reaped 9 (WExited 0) None None] None shell2).1) /\
  untracked (jobs (sigchld_handler [mk_reaped 9 (WExited 0) None None] None shell2).1) 9.
Proof.
  destruct (reaper_clears_reaped_pids [mk_reaped 9 (WExited 0) None None] None shell2)
    as [Hd Hun].
  - reflexivity.
  - exact two_jobs_distinct.
  - split; [exact Hd|].
    apply (Hun (mk_reaped 9 (WExited 0) None None)). now left.
Defined.

Lemma reap_loop_untracked reaped : forall fe tbl e,
  length tbl = MAX_JOBS ->
  (forall r, In r reaped -> untracked tbl (Z.pos (rc_pid r))) ->
  (reap_loop reaped fe tbl e).1.1 = tbl /\ (reap_loop reaped fe tbl e).2 = [].
Proof.
  induction reaped as [|r rest IH]; intros fe tbl e Hlen Hun; [split; reflexivity|].
  cbn [reap_loop].
  destruct (mark_job_done_cases tbl (Z.pos (rc_pid r)) (rc_status r) Hlen)
    as [(m & jm & [(jm' & Hm' & Hmatch) _] & _)|[_ ->]].
  - rewrite (Hun r (or_introl eq_refl) m jm' Hm') in Hmatch. discriminate.
  - destruct (IH fe tbl (store_errno (rc_print_errno r)
                           (store_errno (rc_wait_errno r) e)) Hlen) as [Ht Ho].
    { intros r' Hr'. apply Hun. now right. }
    destruct (reap_loop rest fe tbl _) as [[tbl2 e3] out2].
    cbn [fst snd] in *. now subst.
Qed.

(** Children that no active slot tracks (foreground stages, earlier
    stages of a pipeline) are reaped without a trace: the interpreter's
    state is as before and nothing is printed. *)
Theorem reaper_ignores_untracked (reaped : list reaped_child)
    (fe : option Z) (sh : shell) :
  length (jobs sh) = MAX_JOBS ->
  (forall r, In r reaped -> untracked (jobs sh) (Z.pos (rc_pid r))) ->
  sigchld_handler reaped fe sh = (sh, []).
Proof.
  intros Hlen Hun. unfold sigchld_handler.
  destruct (reap_loop_untracked reaped fe (jobs sh) (errno sh) Hlen Hun) as [Ht Ho].
  destruct (reap_loop reaped fe (jobs sh) (errno sh)) as [[tbl e] out].
  cbn [fst snd] in *. subst. now destruct sh.
Qed.

Lemma reaper_ignores_untracked_witness :
  sigchld_handler [mk_reaped 5 (WExited 0) (Some 4) None] (Some 10) shell0
    = (shell0, []).
Proof.
  apply (reaper_ignores_untracked [mk_reaped 5 (WExited 0) (Some 4) None] (Some 10) shell0).
  - reflexivity.
  - intros r _ k j Hk. apply lookup_replicate in Hk as [-> _]. reflexivity.
Defined.

End ReaperMore.

(** ** Builtins: the job listing *)

Section ListingFacts.

Lemma jobs_listing_spec tbl : forall i0 idx p line,
  In (idx, p, line) (jobs_listing i0 tbl) <->
  exists k j, tbl !! k = Some j /\ running j = true /\
              idx = Z.of_nat (i0 + k) + 1 /\ p = pid j /\ line = cmdline j.
Proof.
  induction tbl as [|j0 tbl IH]; intros i0 idx p line; cbn [jobs_listing].
  - split; [intros [] | intros (k & j & Hk & _); now destruct k].
  - assert (Htail : In (idx, p, line) (jobs_listing (S i0) tbl) <->
              exists k j, (j0 :: tbl) !! S k = Some j /\ running j = true /\
                idx = Z.of_nat (i0 + S k) + 1 /\ p = pid j /\ line = cmdline j).
    { rewrite IH. split; intros (k & j & Hk & Hr & Hi & Hp);
        exists k, j; (split; [exact Hk|]); (split; [exact Hr|]);
        (split; [|exact Hp]); rewrite Hi; f_equal; lia. }
    destruct (running j0) eqn:Hr0.
    + cbn [In]. rewrite Htail. split.
      * intros [E|(k & j & H)]; [|now exists (S k), j].
        inversion E; subst. exists O, j0. rewrite Nat.add_0_r. auto.
      * intros ([|k] & j & Hk & Hr & Hi & Hp & Hl).
        -- left. inversion Hk; subst. rewrite Nat.add_0_r. reflexivity.
        -- right. now exists k, j.
    + rewrite Htail. split.
      * intros (k & j & H). now exists (S k), j.
      * intros ([|k] & j & Hk & Hr & H); [inversion Hk; congruence|].
        now exists k, j.
Qed.

Lemma jobs_listing_above tbl : forall i0 e,
  In e (jobs_listing i0 tbl) -> Z.of_nat i0 < e.1.1.
Proof.
  intros i0 [[idx p] line] Hin. apply jobs_listing_spec in Hin
    as (k & j & _ & _ & -> & _). cbn. lia.
Qed.

Lemma jobs_listing_ordered tbl : forall i0 a b ea eb,
  jobs_listing i0 tbl !! a = Some ea -> jobs_listing i0 tbl !! b = Some eb ->
  (a < b)%nat -> ea.1.1 < eb.1.1.
Proof.
  induction tbl as [|j0 tbl IH]; intros i0 a b ea eb; cbn [jobs_listing];
    [intros H; now destruct a|].
  destruct (running j0); [|apply IH].
  destruct a as [|a], b as [|b]; cbn [lookup list_lookup]; try lia.
  - intros E Hb _. inversion E; subst ea. cbn.
    assert (Hin : In eb (jobs_listing (S i0) tbl))
      by (apply list_elem_of_In; eapply list_elem_of_lookup_2; exact Hb).
    apply jobs_listing_above in Hin. lia.
  - intros Ha Hb Hlt. apply (IH (S i0) a b); [exact Ha | exact Hb | lia].
Qed.

(** The jobs builtin lists exactly the active slots, each with its
    index plus one, its pid and its saved line, in slot order. *)
Theorem jobs_builtin_lists_active_slots (tbl : list job_t) (c : cmd_t)
    (args : list string) :
  length tbl = MAX_JOBS ->
  argv c = "jobs" :: args ->
  exists listing,
    run_builtin tbl c = DidJobs listing /\
    (forall idx p line,
       In (idx, p, line) listing <->
       exists k j, tbl !! k = Some j /\ running j = true /\
                   idx = Z.of_nat k + 1 /\ p = pid j /\ line = cmdline j) /\
    (forall a b ea eb, listing !! a = Some ea -> listing !! b = Some eb ->
       (a < b)%nat -> ea.1.1 < eb.1.1).
Proof.
  intros Hlen Hargv. exists (jobs_listing 0 tbl).
  split; [|split].
  - unfold run_builtin. rewrite Hargv. cbn [String.eqb Ascii.eqb Bool.eqb].
    now rewrite take_ge by lia.
  - intros idx p line. apply jobs_listing_spec.
  - apply jobs_listing_ordered.
Qed.

Lemma jobs_builtin_lists_active_slots_witness :
  exists listing,
    run_builtin (add_job initial_jobs 42 "sleep 1 &").1
      (mk_cmd ["jobs"] None None false) = DidJobs listing /\
    (forall idx p line,
       In (idx, p, line) listing <->
       exists k j, (add_job initial_jobs 42 "sleep 1 &").1 !! k = Some j /\
                   running j = true /\
                   idx = Z.of_nat k + 1 /\ p = pid j /\ line = cmdline j) /\
    (forall a b ea eb, listing !! a = Some ea -> listing !! b = Some eb ->
       (a < b)%nat -> ea.1.1 < eb.1.1).
Proof.
  apply (jobs_builtin_lists_active_slots (add_job initial_jobs 42 "sleep 1 &").1
           (mk_cmd ["jobs"] None None false) []); reflexivity.
Defined.

End ListingFacts.

(** ** The saved command line and the read loop's trimming *)

Section LineFacts.

Lemma string_take_spec n : forall s,
  (String.length (string_take n s) <= n)%nat /\
  exists rest, s = String.append (string_take n s) rest.
Proof.
  induction n as [|n IH]; intros s.
  - split; [cbn; lia | now exists s].
  - destruct s as [|c s]; [split; [cbn; lia | now exists EmptyString]|].
    destruct (IH s) as [Hl [rest Hr]]. cbn [string_take String.length].
    split; [lia|]. exists rest. cbn [String.append]. now rewrite <- Hr.
Qed.

(** The line saved in a job record has at most 511 characters and is a
    prefix of the command line. *)
Theorem saved_cmdline_is_bounded_prefix (line : string) :
  (String.length (strncpy_cmdline line) <= 511)%nat /\
  exists rest, c_str line = String.append (strncpy_cmdline line) rest.
Proof. apply string_take_spec. Qed.

Lemma chomp_app_lf s : chomp (String.append s (String LF EmptyString)) = s.
Proof.
  induction s as [|c s IH]; [reflexivity|].
  cbn [String.append]. cbn [chomp]. rewrite IH.
  now destruct (String.append s (String LF EmptyString)) eqn:E;
    [destruct s; discriminate|].
Qed.

Lemma chomp_no_lf s c :
  Ascii.eqb c LF = false ->
  chomp (String.append s (String c EmptyString)) = String.append s (String c EmptyString).
Proof.
  intros Hc. induction s as [|a s IH]; [cbn; now rewrite Hc|].
  cbn [String.append]. cbn [chomp]. rewrite IH.
  now destruct (String.append s (String c EmptyString)) eqn:E;
    [destruct s; discriminate|].
Qed.

(** Line 325 removes exactly one final newline: a line that ends in a
    newline loses it (a second one before it stays), any other line is
    unchanged. *)
Theorem chomp_removes_one_newline (s : string) (c : ascii) :
  chomp (String.append s (String LF EmptyString)) = s /\
  (Ascii.eqb c LF = false ->
   chomp (String.append s (String c EmptyString))
     = String.append s (String c EmptyString)) /\
  chomp EmptyString = EmptyString.
Proof.
  split; [apply chomp_app_lf|]. split; [apply chomp_no_lf | reflexivity].
Qed.

Lemma chomp_removes_one_newline_witness :
  chomp (String.append "ls" (String LF EmptyString)) = "ls" /\
  chomp (String.append "l" (String "s" EmptyString))
    = String.append "l" (String "s" EmptyString).
Proof.
  destruct (chomp_removes_one_newline "ls" "s") as (H1 & _).
  destruct (chomp_removes_one_newline "l" "s") as (_ & H2 & _).
  split; [exact H1 | apply H2; reflexivity].
Defined.

Lemma skip_indent_blank p :
  string_forall is_blank p = true -> string_forall is_blank (skip_indent p) = true.
Proof.
  induction p as [|c p IH]; [reflexivity|]. cbn [string_forall skip_indent].
  intros H. apply andb_true_iff in H as [Hc Hp].
  destruct (Ascii.eqb c " " || Ascii.eqb c TAB); [now apply IH|].
  cbn [string_forall]. now rewrite Hc, Hp.
Qed.

Lemma skip_indent_blank_inv p :
  string_forall is_blank (skip_indent p) = true -> string_forall is_blank p = true.
Proof.
  induction p as [|c p IH]; [reflexivity|]. cbn [string_forall skip_indent].
  destruct (Ascii.eqb c " " || Ascii.eqb c TAB) eqn:E.
  - intros H. rewrite (IH H), andb_true_r. unfold is_blank. now rewrite E.
  - auto.
Qed.

Lemma c_str_idempotent s : c_str (c_str s) = c_str s.
Proof.
  induction s as [|c s IH]; [reflexivity|]. cbn [c_str].
  destruct (Ascii.eqb c NUL) eqn:E; [reflexivity|]. cbn [c_str]. now rewrite E, IH.
Qed.

Lemma c_str_skip_indent s : c_str (skip_indent (c_str s)) = skip_indent (c_str s).
Proof.
  induction s as [|c s IH]; [reflexivity|]. cbn [c_str].
  destruct (Ascii.eqb c NUL) eqn:E; [reflexivity|]. cbn [skip_indent].
  destruct (Ascii.eqb c " " || Ascii.eqb c TAB); [exact IH|].
  cbn [c_str]. now rewrite E, c_str_idempotent.
Qed.

(** The read loop does nothing for a line exactly when the line, without
    its final newline and up to its first NUL, holds only blanks; for
    every other line it goes on to the parser. *)
Theorem run_line_skips_blank_lines (s : sys) (sh : shell) (line : string) :
  run_line s sh line = LineSkipped <->
  string_forall is_blank (c_str (chomp line)) = true.
Proof.
  unfold run_line.
  pose proof (tokenize_empty_iff_blank (skip_indent (c_str (chomp line))) MAX_TOKENS
                eq_refl) as Htok.
  rewrite c_str_skip_indent in Htok.
  pose proof (skip_indent_blank (c_str (chomp line))) as H1.
  pose proof (skip_indent_blank_inv (c_str (chomp line))) as H2.
  destruct (skip_indent (c_str (chomp line))) as [|c trim] eqn:E.
  - split; [intros _; now apply H2 | reflexivity].
  - destruct (tokenize (String c trim) MAX_TOKENS) as [|t ts] eqn:Et.
    + cbn [length]. split; [intros _; apply H2; now apply Htok | reflexivity].
    + cbn [length].
      replace (Z.of_nat (S (length ts)) <=? 0) with false
        by (symmetry; apply Z.leb_gt; lia).
      split.
      * unfold run_tokens. destruct (parse_commands (t :: ts)) as [cmds bg|e|];
          [destruct (dispatch (jobs sh) cmds)| |]; discriminate.
      * intros Hb. apply H1, Htok in Hb. discriminate.
Qed.

End LineFacts.

(** ** Executor: failures and the foreground wait *)

Section ExecutorMore.

Variable s : sys.

Lemma spawn_loop_fails : forall cmds i t prev lp k,
  (k < length cmds)%nat ->
  (forall j, (j < k)%nat ->
     ((S j < length cmds)%nat -> pipe_ok s (i + j) = true) /\
     is_Some (fork_ret s (i + j))) ->
  (((S k < length cmds)%nat /\ pipe_ok s (i + k) = false) \/
   fork_ret s (i + k) = None) ->
  let r := spawn_loop s cmds i t prev lp in
  length (sp_log r) = k /\ (sp_end r = PipeFailed \/ sp_end r = ForkFailed).
Proof.
  induction cmds as [|c rest IH]; intros i t prev lp k Hk Hbefore Hfail;
    [cbn [length] in Hk; lia|].
  cbn [spawn_loop]. destruct k as [|k].
  - rewrite Nat.add_0_r in Hfail. destruct rest as [|c' rest'].
    + destruct Hfail as [[Hlt _]|Hf]; [cbn [length] in Hlt; lia|].
      rewrite Hf. cbn. auto.
    + destruct (pipe_ok s i) eqn:Hp; [|cbn; auto].
      destruct Hfail as [[_ Hf]|Hf]; [congruence|].
      destruct (sys_pipe t i) as [[t1 r] w]. rewrite Hf. cbn. auto.
  - destruct (Hbefore O) as [Hp [child Hf]]; [lia|].
    rewrite Nat.add_0_r in Hp, Hf.
    destruct rest as [|c' rest']; [cbn [length] in Hk; lia|].
    rewrite Hp by (cbn [length]; lia).
    destruct (sys_pipe t i) as [[t1 r] w]. rewrite Hf.
    cbn [sp_log sp_end length].
    edestruct (IH (S i) (parent_closes t1 prev (Some w)) (Some r) (Z.pos child) k)
      as [Hl He].
    + cbn [length] in *; lia.
    + intros j Hj. replace (S i + j)%nat with (i + S j)%nat by lia.
      destruct (Hbefore (S j)) as [Hp' Hf']; [lia|]. split; [|exact Hf'].
      intros Hlt. apply Hp'. cbn [length] in *; lia.
    + replace (S i + k)%nat with (i + S k)%nat by lia.
      destruct Hfail as [[Hlt Hpf]|Hff]; [left | now right].
      split; [cbn [length] in *; lia | exact Hpf].
    + cbv zeta in Hl, He. split; [now rewrite Hl | exact He].
Qed.

(** When the [pipe] or [fork] for stage [k] fails, the executor stops
    there: exactly the [k] earlier stages stay forked, the job table is
    untouched, nothing is waited for and one diagnostic is written. *)
Theorem failed_call_abandons_pipeline (sh : shell) (cmds : list cmd_t)
    (bg : bool) (line : string) (k : nat) :
  dispatch (jobs sh) cmds = ToExecutor ->
  (k < length cmds)%nat ->
  calls_succeed_before s (length cmds) k ->
  call_fails s (length cmds) k ->
  let r := execute_pipeline s sh cmds bg line in
  length (ex_log r) = k /\
  ex_end r = EndFailed /\
  ex_jobs r = jobs sh /\
  (ex_out r = [Diagnostic "pipe"] \/ ex_out r = [Diagnostic "fork"]).
Proof.
  intros Hd Hk Hbefore Hfail r.
  destruct (spawn_loop_fails cmds 0 (fds sh) None (-1) k Hk Hbefore Hfail)
    as [Hl He].
  cbv zeta in Hl, He. subst r. unfold execute_pipeline. rewrite Hd.
  destruct He as [He|He]; rewrite He; cbn [ex_log ex_end ex_jobs ex_out]; auto.
Qed.

Lemma wait_last_calls n ok p :
  wait_last n ok p =
    replicate (S n) (WaitedFor p) ++ (if ok then [] else [Diagnostic "waitpid"]).
Proof.
  induction n as [|n IH]; [reflexivity|].
  cbn [wait_last]. rewrite IH. reflexivity.
Qed.

(** A foreground pipeline whose calls all succeed has every stage
    forked and leaves the job table as it is.  It then calls [waitpid]
    on the pid of the last stage and on no other: once, and once more
    after every call that a signal interrupted.  When the call fails in
    another way (the SIGCHLD handler has reaped that child first) the
    waitpid diagnostic is written and the executor returns all the
    same. *)
Theorem foreground_waits_for_last_stage (sh : shell) (cmds : list cmd_t)
    (line : string) (child : positive) :
  cmds <> [] ->
  dispatch (jobs sh) cmds = ToExecutor ->
  launches s (length cmds) ->
  fork_ret s (length cmds - 1) = Some child ->
  let r := execute_pipeline s sh cmds false line in
  ex_end r = EndForeground /\
  ex_out r = replicate (S (wait_eintr s)) (WaitedFor (Z.pos child))
             ++ (if wait_ok s then [] else [Diagnostic "waitpid"]) /\
  (forall p, In (WaitedFor p) (ex_out r) -> p = Z.pos child) /\
  (In (Diagnostic "waitpid") (ex_out r) <-> wait_ok s = false) /\
  ex_jobs r = jobs sh /\
  length (ex_log r) = length cmds.
Proof.
  intros Hne Hd Hok Hlast r.
  destruct (spawn_loop_launches s cmds 0 (fds sh) None (-1) child Hne Hok Hlast)
    as (He & Hl & _).
  cbv zeta in He, Hl. subst r. unfold execute_pipeline. rewrite Hd, He.
  cbn [ex_end ex_out ex_jobs ex_log]. rewrite wait_last_calls.
  split; [reflexivity|]. split; [reflexivity|].
  split; [|split; [|auto]].
  - intros p Hin. apply in_app_or in Hin as [Hin|Hin].
    + apply list_elem_of_In, elem_of_replicate_inv in Hin. congruence.
    + destruct (wait_ok s); [destruct Hin|].
      destruct Hin as [E|[]]; discriminate.
  - split.
    + intros Hin. apply in_app_or in Hin as [Hin|Hin].
      * apply list_elem_of_In, elem_of_replicate_inv in Hin. discriminate.
      * destruct (wait_ok s); [destruct Hin | reflexivity].
    + intros Hw. rewrite Hw. apply in_or_app. right. now left.
Qed.

End ExecutorMore.

Lemma failed_call_abandons_pipeline_witness :
  length (ex_log (execute_pipeline (sys_fork_fails 1) shell0 three_stages true
                    "a | b | c > out &")) = 1%nat /\
  ex_end (execute_pipeline (sys_fork_fails 1) shell0 three_stages true
            "a | b | c > out &") = EndFailed /\
  ex_jobs (execute_pipeline (sys_fork_fails 1) shell0 three_stages true
             "a | b | c > out &") = jobs shell0 /\
  (ex_out (execute_pipeline (sys_fork_fails 1) shell0 three_stages true
             "a | b | c > out &") = [Diagnostic "pipe"] \/
   ex_out (execute_pipeline (sys_fork_fails 1) shell0 three_stages true
             "a | b | c > out &") = [Diagnostic "fork"]).
Proof.
  apply (failed_call_abandons_pipeline (sys_fork_fails 1) shell0 three_stages true
           "a | b | c > out &" 1).
  - reflexivity.
  - cbn; lia.
  - intros j Hj. assert (j = 0%nat) by lia. subst j.
    split; [reflexivity | eexists; reflexivity].
  - right. reflexivity.
Defined.

(** Three stages, the wait interrupted once and then refused because
    the handler was first. *)
Lemma foreground_waits_for_last_stage_witness :
  ex_end (execute_pipeline sys_reaped_first shell0 three_stages false
            "a | b | c > out") = EndForeground /\
  ex_out (execute_pipeline sys_reaped_first shell0 three_stages false
            "a | b | c > out")
    = [WaitedFor 102; WaitedFor 102; Diagnostic "waitpid"] /\
  ex_jobs (execute_pipeline sys_reaped_first shell0 three_stages false
             "a | b | c > out") = jobs shell0 /\
  length (ex_log (execute_pipeline sys_reaped_first shell0 three_stages false
                    "a | b | c > out")) = length three_stages.
Proof.
  destruct (foreground_waits_for_last_stage sys_reaped_first shell0 three_stages
              "a | b | c > out" 102%positive) as (He & Ho & _ & _ & Hj & Hl).
  - discriminate.
  - reflexivity.
  - intros k Hk. split; [reflexivity | eexists; reflexivity].
  - reflexivity.
  - split; [exact He|]. split; [exact Ho|]. split; [exact Hj | exact Hl].
Defined.

(** ** Executor: the standard streams of each stage *)

Section ChildStreams.

Variable s : sys.



Variables (i n : nat) (t1 : fd_table) (prev_fd pipe_rd pipe_wr : option nat).
Hypothesis Hfork : at_fork i n t1 prev_fd pipe_rd pipe_wr.


End ChildStreams.

Section StageStreams.

Variable s : sys.

Lemma sys_pipe_low t k t1 r w :
  std_open t -> sys_pipe t k = (t1, r, w) ->
  forall x, (x < 3)%nat -> fd_get t1 x = fd_get t x.
Proof.
  intros Hstd Hpipe x Hx.
  destruct (sys_pipe_spec _ _ _ _ _ Hpipe) as (Hr & Hw & _ & Hget).
  pose proof (std_open_above _ _ Hstd Hr). pose proof (std_open_above _ _ Hstd Hw).
  rewrite Hget. destruct (Nat.eqb_spec w x); [lia|].
  destruct (Nat.eqb_spec r x); [lia | reflexivity].
Qed.

Lemma parent_closes_low i n t1 prev_fd pipe_rd pipe_wr :
  at_fork i n t1 prev_fd pipe_rd pipe_wr ->
  forall x, (x < 3)%nat ->
    fd_get (parent_closes t1 prev_fd pipe_wr) x = fd_get t1 x.
Proof.
  intros (_ & _ & Hprev & _ & Hwr & _) x Hx. rewrite parent_closes_get.
  destruct pipe_wr as [w|]; [destruct (Hwr w eq_refl) as [_ ?];
    destruct (Nat.eqb_spec w x); [lia|]|];
  (destruct prev_fd as [p|]; [destruct (Hprev p eq_refl) as [_ ?];
    destruct (Nat.eqb_spec p x); [lia|]|]); reflexivity.
Qed.

(** Every logged stage was forked from a table in the state [at_fork],
    which agrees with the table at loop entry on descriptors 0 to 2. *)
Lemma spawn_loop_entry : forall cmds i t prev lp,
  parent_inv i t prev ->
  forall j lg c,
    sp_log (spawn_loop s cmds i t prev lp) !! j = Some lg ->
    cmds !! j = Some c ->
    exists t1 prev' rd wr child,
      at_fork (i + j) (i + length cmds) t1 prev' rd wr /\
      (forall x, (x < 3)%nat -> fd_get t1 x = fd_get t x) /\
      sl_child lg = run_child s t1 prev' rd wr c /\
      fork_ret s (i + j) = Some child /\ sl_pid lg = Z.pos child.
Proof.
  induction cmds as [|c0 rest IH]; intros i t prev lp Hinv j lg c Hlg Hc;
    [discriminate|].
  cbn [spawn_loop] in Hlg.
  destruct rest as [|c1 rest'].
  - destruct (fork_ret s i) as [child|] eqn:Hf; [|discriminate].
    cbn [sp_log spawn_loop] in Hlg.
    destruct j as [|j]; [|discriminate].
    inversion Hlg; subst lg; clear Hlg. inversion Hc; subst c; clear Hc.
    assert (Hn : (i + length [c0] = S i)%nat) by (cbn [length]; lia).
    rewrite Hn, Nat.add_0_r.
    exists t, prev, None, None, child.
    split; [now apply at_fork_last|]. auto.
  - destruct (pipe_ok s i); [|discriminate].
    destruct (sys_pipe t i) as [[t1 r] w] eqn:Hpipe.
    destruct (fork_ret s i) as [child|] eqn:Hf; [|discriminate].
    cbn [sp_log] in Hlg.
    set (n := (i + length (c0 :: c1 :: rest'))%nat).
    assert (Hn : (S i < n)%nat) by (unfold n; cbn [length]; lia).
    pose proof (at_fork_piped n i t prev t1 r w Hn Hinv Hpipe) as Hfork.
    assert (Hlow1 : forall x, (x < 3)%nat -> fd_get t1 x = fd_get t x)
      by (destruct Hinv as [Hstd _]; exact (sys_pipe_low _ _ _ _ _ Hstd Hpipe)).
    destruct j as [|j].
    + inversion Hlg; subst lg; clear Hlg. inversion Hc; subst c; clear Hc.
      rewrite Nat.add_0_r. exists t1, prev, (Some r), (Some w), child. auto.
    + destruct (parent_after _ _ _ _ _ _ Hfork) as (_ & _ & Hnext).
      specialize (Hnext r eq_refl).
      cbn [lookup list_lookup] in Hlg, Hc.
      destruct (IH (S i) _ (Some r) _ Hnext j lg c Hlg Hc)
        as (t1' & prev' & rd' & wr' & child' & Hat & Hlow & Hrun & Hf' & Hpid).
      exists t1', prev', rd', wr', child'.
      replace (i + S j)%nat with (S i + j)%nat by lia.
      replace n with (S i + length (c1 :: rest'))%nat
        by (unfold n; cbn [length]; lia).
      split; [exact Hat|]. split; [|auto].
      intros x Hx. rewrite (Hlow x Hx), (parent_closes_low _ _ _ _ _ _ Hfork x Hx).
      now apply Hlow1.
Qed.


End StageStreams.


(** ** Executor: how a stage ends, and that stages are independent *)

Section StageOutcome.

Variable s : sys.

Lemma run_child_outcome t prev rd wr c :
  exists t',
    run_child s t prev rd wr c =
      if in_opens s c && out_opens s c then
        match argv c with
        | [] => ChildExit 0
        | _ :: _ => ChildExec t' (argv c)
        end
      else ChildExit 1.
Proof.
  unfold run_child, in_opens, out_opens, out_mode, sys_open.
  destruct (infile c) as [pin|].
  - destruct (open_ok s pin ReadOnly); cbn [andb]; [|now exists t].
    destruct (outfile c) as [pout|].
    + destruct (open_ok s pout _); [|now exists t].
      destruct (argv c); [now exists t | cbv zeta; eexists; reflexivity].
    + destruct (argv c); [now exists t | cbv zeta; eexists; reflexivity].
  - cbn [andb]. destruct (outfile c) as [pout|].
    + destruct (open_ok s pout _); [|now exists t].
      destruct (argv c); [now exists t | cbv zeta; eexists; reflexivity].
    + destruct (argv c); [now exists t | cbv zeta; eexists; reflexivity].
Qed.

(** How the child of a stage ends: with status 1 exactly when one of
    the stage's redirection files cannot be opened (whatever its
    arguments), with status 0 exactly when the files open and the stage
    has no argument at all, and in [execvp] otherwise. *)
Theorem stage_outcome (sh : shell) (cmds : list cmd_t) (bg : bool)
    (line : string) (i : nat) (lg : stage_log) (c : cmd_t) :
  std_open (fds sh) -> no_pipe_ends (fds sh) ->
  ex_log (execute_pipeline s sh cmds bg line) !! i = Some lg ->
  cmds !! i = Some c ->
  (sl_child lg = ChildExit 1 <-> in_opens s c && out_opens s c = false) /\
  (sl_child lg = ChildExit 0 <->
     in_opens s c && out_opens s c = true /\ argv c = []) /\
  ((exists t, sl_child lg = ChildExec t (argv c)) <->
     in_opens s c && out_opens s c = true /\ argv c <> []).
Proof.
  intros Hstd Hno Hlg Hc.
  destruct (dispatch (jobs sh) cmds) as [e|] eqn:Hd.
  { rewrite (execute_pipeline_builtin_log s sh cmds bg line e Hd) in Hlg.
    discriminate. }
  destruct (execute_pipeline_log s sh cmds bg line Hd) as [Hlog _].
  rewrite Hlog in Hlg.
  destruct (spawn_loop_entry s cmds 0 (fds sh) None (-1)
              (initial_parent_inv _ Hstd Hno) i lg c Hlg Hc)
    as (t1 & prev & rd & wr & child & _ & _ & Hrun & _).
  destruct (run_child_outcome t1 prev rd wr c) as [t' Hout].
  rewrite Hrun, Hout.
  destruct (in_opens s c && out_opens s c).
  - destruct (argv c) as [|a rest].
    + split; [split; discriminate|]. split; [split; [auto | reflexivity]|].
      split; [intros [t E]; discriminate | intros [_ H]; congruence].
    + split; [split; discriminate|]. split; [split; [discriminate | intros [_ E]; discriminate]|].
      split; [intros _; split; [reflexivity | discriminate] | intros _; now exists t'].
  - split; [split; reflexivity|]. split; [split; [discriminate | intros [E _]; discriminate]|].
    split; [intros [t E]; discriminate | intros [E _]; discriminate].
Qed.

End StageOutcome.

Section StageIndependence.

(** Two runs: [s'] answers [pipe] and [fork] as [s] does, and may
    answer [open] differently, as it does when another stage has
    created, truncated or removed a file. *)
Variables s s' : sys.
Hypothesis same_pipe : forall i, pipe_ok s' i = pipe_ok s i.
Hypothesis same_fork : forall i, fork_ret s' i = fork_ret s i.

Lemma run_child_same_opens t prev rd wr c :
  same_opens s s' c ->
  run_child s' t prev rd wr c = run_child s t prev rd wr c.
Proof.
  unfold same_opens, in_opens, out_opens, out_mode, run_child, sys_open.
  intros [Hin Hout].
  destruct (infile c) as [pin|].
  - rewrite Hin. destruct (open_ok s pin ReadOnly); [|reflexivity].
    specialize (Hout eq_refl).
    destruct (outfile c) as [pout|]; [|reflexivity].
    now rewrite Hout.
  - specialize (Hout eq_refl).
    destruct (outfile c) as [pout|]; [|reflexivity].
    now rewrite Hout.
Qed.

Lemma spawn_loop_insert : forall cmds k c' i t prev lp,
  let r := spawn_loop s cmds i t prev lp in
  let r' := spawn_loop s' (<[k := c']> cmds) i t prev lp in
  sp_fds r' = sp_fds r /\ sp_end r' = sp_end r /\
  map sl_pid (sp_log r') = map sl_pid (sp_log r) /\
  map sl_parent (sp_log r') = map sl_parent (sp_log r) /\
  forall j c, j <> k -> cmds !! j = Some c -> same_opens s s' c ->
    sp_log r' !! j = sp_log r !! j.
Proof.
  induction cmds as [|c rest IH]; intros k c' i t prev lp.
  { cbn; repeat split; auto; intros j c _ H; discriminate. }
  assert (Hstep : forall rest2 c2,
    length rest2 = length rest ->
    (forall i1 t1 prev1 lp1,
       let r := spawn_loop s rest i1 t1 prev1 lp1 in
       let r' := spawn_loop s' rest2 i1 t1 prev1 lp1 in
       sp_fds r' = sp_fds r /\ sp_end r' = sp_end r /\
       map sl_pid (sp_log r') = map sl_pid (sp_log r) /\
       map sl_parent (sp_log r') = map sl_parent (sp_log r)) ->
    let r := spawn_loop s (c :: rest) i t prev lp in
    let r' := spawn_loop s' (c2 :: rest2) i t prev lp in
    sp_fds r' = sp_fds r /\ sp_end r' = sp_end r /\
    map sl_pid (sp_log r') = map sl_pid (sp_log r) /\
    map sl_parent (sp_log r') = map sl_parent (sp_log r)).
  { intros rest2 c2 Hl Hrest. cbn [spawn_loop]. rewrite same_pipe, same_fork.
    destruct rest as [|c1 rest'], rest2 as [|c3 rest2']; cbn [length] in Hl;
      try lia.
    - destruct (fork_ret s i); cbn; auto.
    - destruct (pipe_ok s i); [|cbn; auto].
      destruct (sys_pipe t i) as [[t1 r] w].
      destruct (fork_ret s i) as [child|]; [|cbn; auto].
      specialize (Hrest (S i) (parent_closes t1 prev (Some w)) (Some r) (Z.pos child)).
      cbv zeta in Hrest. destruct Hrest as (Hf & He & Hp & Hpar).
      cbn [sp_fds sp_end sp_log map]. rewrite Hf, He, Hp, Hpar. auto. }
  destruct k as [|k].
  - change (<[0%nat := c']> (c :: rest)) with (c' :: rest).
    assert (Hsame : forall i1 t1 prev1 lp1,
      let r := spawn_loop s rest i1 t1 prev1 lp1 in
      let r' := spawn_loop s' rest i1 t1 prev1 lp1 in
      sp_fds r' = sp_fds r /\ sp_end r' = sp_end r /\
      map sl_pid (sp_log r') = map sl_pid (sp_log r) /\
      map sl_parent (sp_log r') = map sl_parent (sp_log r) /\
      forall j c, rest !! j = Some c -> same_opens s s' c ->
        sp_log r' !! j = sp_log r !! j).
    { intros i1 t1 prev1 lp1.
      pose proof (IH (length rest) c' i1 t1 prev1 lp1) as H.
      rewrite list_insert_ge in H by lia. cbv zeta in H.
      destruct H as (Hf & He & Hp & Hpar & Hj). cbv zeta.
      repeat (split; [assumption|]). intros j cj Hcj Hcs.
      apply (Hj j cj); [|exact Hcj | exact Hcs].
      apply lookup_lt_Some in Hcj. lia. }
    destruct (Hstep rest c' eq_refl) as (Hf & He & Hp & Hpar).
    { intros i1 t1 prev1 lp1. destruct (Hsame i1 t1 prev1 lp1) as (? & ? & ? & ? & _).
      cbv zeta. auto. }
    cbv zeta in Hf, He, Hp, Hpar. cbv zeta.
    repeat (split; [assumption|]).
    intros [|j] cj Hne Hcj Hcs; [lia|]. cbn [lookup list_lookup] in Hcj.
    clear Hf He Hp Hpar. cbn [spawn_loop]. rewrite same_pipe, same_fork.
    destruct rest as [|c1 rest']; [discriminate|].
    destruct (pipe_ok s i); [|reflexivity].
    destruct (sys_pipe t i) as [[t1 r] w].
    destruct (fork_ret s i) as [child|]; [|reflexivity].
    cbn [sp_log lookup list_lookup].
    destruct (Hsame (S i) (parent_closes t1 prev (Some w)) (Some r) (Z.pos child))
      as (_ & _ & _ & _ & Hj).
    apply (Hj j cj Hcj Hcs).
  - change (<[S k := c']> (c :: rest)) with (c :: <[k := c']> rest).
    pose proof (IH k c') as IHk. pose proof (length_insert rest k c') as Hl.
    destruct (Hstep (<[k := c']> rest) c Hl) as (Hf & He & Hp & Hpar).
    { intros i1 t1 prev1 lp1. destruct (IHk i1 t1 prev1 lp1) as (? & ? & ? & ? & _).
      cbv zeta. auto. }
    cbv zeta in Hf, He, Hp, Hpar. cbv zeta.
    repeat (split; [assumption|]).
    clear Hf He Hp Hpar Hstep.
    revert IHk Hl. generalize (<[k := c']> rest). intros rest2 IHk Hl.
    intros j cj Hne Hcj Hcs. cbn [spawn_loop]. rewrite same_pipe, same_fork.
    destruct rest as [|c1 rest'], rest2 as [|c2 rest2']; cbn [length] in Hl;
      try lia.
    + destruct j as [|j]; [|discriminate]. cbn [lookup list_lookup] in Hcj.
      inversion Hcj; subst cj.
      destruct (fork_ret s i); [|reflexivity].
      cbn [sp_log lookup list_lookup spawn_loop].
      now rewrite (run_child_same_opens _ _ _ _ _ Hcs).
    + destruct (pipe_ok s i); [|reflexivity].
      destruct (sys_pipe t i) as [[t1 r] w].
      destruct (fork_ret s i) as [child|]; [|reflexivity].
      cbn [sp_log]. destruct j as [|j].
      * cbn [lookup list_lookup] in Hcj. inversion Hcj; subst cj.
        cbn [lookup list_lookup].
        now rewrite (run_child_same_opens _ _ _ _ _ Hcs).
      * cbn [lookup list_lookup] in Hcj |- *.
        destruct (IHk (S i) (parent_closes t1 prev (Some w)) (Some r) (Z.pos child))
          as (_ & _ & _ & _ & Hj).
        apply (Hj j cj); [lia | exact Hcj | exact Hcs].
Qed.

(** The stages of a pipeline do not depend on one another's commands.
    Put another command in stage [k] of a pipeline of two or more
    stages, and let the files that can be opened change with it: the
    same stages are forked with the same pids, the parent's descriptors
    after each stage are the same, and the executor ends with the same
    descriptors and job table.  A stage other than [k] runs in the same
    way as before when the [open] calls it makes itself are answered as
    before, so always when it names no file.  What the executor writes
    is the same when the foreground wait is answered as before. *)
Theorem stages_are_independent (sh : shell) (cmds : list cmd_t) (bg : bool)
    (line : string) (k : nat) (c' : cmd_t) :
  (1 < length cmds)%nat ->
  let r := execute_pipeline s sh cmds bg line in
  let r' := execute_pipeline s' sh (<[k := c']> cmds) bg line in
  map sl_pid (ex_log r') = map sl_pid (ex_log r) /\
  map sl_parent (ex_log r') = map sl_parent (ex_log r) /\
  ex_end r' = ex_end r /\ ex_fds r' = ex_fds r /\
  ex_jobs r' = ex_jobs r /\
  (forall j c, j <> k -> cmds !! j = Some c -> same_opens s s' c ->
     ex_log r' !! j = ex_log r !! j) /\
  (forall j c, j <> k -> cmds !! j = Some c ->
     infile c = None -> outfile c = None ->
     ex_log r' !! j = ex_log r !! j) /\
  (wait_eintr s' = wait_eintr s -> wait_ok s' = wait_ok s ->
   ex_out r' = ex_out r).
Proof.
  intros Hlen r r'.
  assert (Hd : dispatch (jobs sh) cmds = ToExecutor)
    by (destruct cmds as [|? [|? ?]]; cbn [length] in Hlen; [lia | lia | reflexivity]).
  assert (Hd' : dispatch (jobs sh) (<[k := c']> cmds) = ToExecutor).
  { pose proof (length_insert cmds k c') as Hl.
    destruct (<[k := c']> cmds) as [|? [|? ?]]; cbn [length] in Hl;
      [lia | lia | reflexivity]. }
  destruct (spawn_loop_insert cmds k c' 0 (fds sh) None (-1))
    as (Hf & He & Hp & Hpar & Hj).
  cbv zeta in Hf, He, Hp, Hpar, Hj.
  assert (Hplain : forall c, infile c = None -> outfile c = None ->
                             same_opens s s' c).
  { intros c Hi Ho. unfold same_opens, in_opens, out_opens.
    rewrite Hi, Ho. split; reflexivity. }
  subst r r'. unfold execute_pipeline. rewrite Hd, Hd', He.
  destruct (sp_end (spawn_loop s cmds 0 (fds sh) None (-1))) as [last_pid| |];
    [destruct bg; [destruct (add_job (jobs sh) last_pid line)|]| |];
    cbn [ex_log ex_end ex_fds ex_jobs ex_out]; rewrite ?Hf;
    repeat (split; [solve [auto]|]);
    try (split; [intros j c Hne Hc Hi Ho; apply (Hj j c Hne Hc (Hplain c Hi Ho))|]);
    try solve [intros; reflexivity].
  intros Hw1 Hw2. now rewrite Hw1, Hw2.
Qed.

End StageIndependence.

Lemma stage_outcome_witness :
  sl_child (mk_stage_log 101 (ChildExit 1)
              [Some (Inherited 0); Some (Inherited 0); Some (Inherited 0); None; None])
    = ChildExit 1 <->
  in_opens (sys_no_file "in") (mk_cmd ["wc"] (Some "in") None false)
  && out_opens (sys_no_file "in") (mk_cmd ["wc"] (Some "in") None false) = false.
Proof.
  apply (stage_outcome (sys_no_file "in") shell0
           [mk_cmd ["ls"] None None false; mk_cmd ["wc"] (Some "in") None false]
           false "ls | wc < in" 1
           (mk_stage_log 101 (ChildExit 1)
              [Some (Inherited 0); Some (Inherited 0); Some (Inherited 0); None; None])
           (mk_cmd ["wc"] (Some "in") None false)).
  - repeat split; eexists; reflexivity.
  - intros [|[|[|fd]]] o H; inversion H; reflexivity.
  - reflexivity.
  - reflexivity.
Defined.

(** The middle stage of three is replaced and the file named in can no
    longer be opened: the last stage, which opens out only, runs as
    before. *)
Lemma stages_are_independent_witness :
  ex_log (execute_pipeline (sys_no_file "in") shell0
            (<[1%nat := mk_cmd ["rm"; "in"] None None false]> three_stages)
            false "a | rm in | c > out")
    !! 2%nat
  = ex_log (execute_pipeline sys_ok shell0 three_stages false
              "a | rm in | c > out") !! 2%nat.
Proof.
  destruct (stages_are_independent sys_ok (sys_no_file "in")
              (fun _ => eq_refl) (fun _ => eq_refl)
              shell0 three_stages false "a | rm in | c > out" 1
              (mk_cmd ["rm"; "in"] None None false))
    as (_ & _ & _ & _ & _ & Hj & _).
  - cbn; lia.
  - apply (Hj 2%nat (mk_cmd ["c"] None (Some "out") false)).
    + lia.
    + reflexivity.
    + split; [reflexivity | intros _; reflexivity].
Defined.

Lemma run_line_skips_blank_lines_witness :
  run_line sys_ok shell0 (String.append "  " (String TAB (String LF EmptyString)))
    = LineSkipped.
Proof.
  apply (run_line_skips_blank_lines sys_ok shell0
           (String.append "  " (String TAB (String LF EmptyString)))).
  reflexivity.
Defined.
